(** * Well-data ingestion scripts: unit parsing, name cleaning, record mappers

    A shallow embedding of the Python ingestion scripts
    ([ingestion/utils/__init__.py], [ingestion/utils/measurements.py],
    [ingestion/edm_wells.py], [ingestion/01-wells-and-wellbores.py],
    [ingestion/02-trajectories.py]) and the statements proved about them.

    Conventions of the embedding.
    - A Python [str] is a Rocq [string], one [ascii] per code point; the
      embedding covers the strings whose code points are below U+0100,
      with the character classes of [re] and of [str.lower] given for the
      whole of that range.
    - A Python [float] is an IEEE 754 binary64 value, [spec_float] with
      precision 53 and maximal exponent 1024; every operation rounds to
      nearest, ties to even.
    - A Python exception is a value of [exn]; code that may raise returns
      a [result].
    - [None] is [None]; an unbound local variable is modelled apart from
      a variable bound to [None]. *)

From Stdlib Require Import ZArith List String Ascii Bool Lia.
From Stdlib Require Import Floats.SpecFloat.
From stdpp Require Import gmap strings list.

Local Open Scope string_scope.
Local Open Scope Z_scope.
Local Open Scope list_scope.

(** ** Exceptions and results *)

Inductive exn : Type :=
| KeyError (key : string)
| ValueError
| TypeError
| IndexError
| ZeroDivisionError
| UnboundLocalError (var : string)
| LookupException (extid : string).

Inductive result (A : Type) : Type :=
| Ok (a : A)
| Raise (e : exn).
Arguments Ok {A} a.
Arguments Raise {A} e.

Definition rbind {A B} (r : result A) (k : A -> result B) : result B :=
  match r with
  | Ok a => k a
  | Raise e => Raise e
  end.

Notation "'let*' x ':=' e 'in' k" := (rbind e (fun x => k))
  (at level 10, x pattern, e at level 100, k at level 200, only parsing).

(** ** binary64 floats *)

Module Float64.

Definition prec : Z := 53.
Definition emax : Z := 1024.

Definition float : Type := spec_float.

(** Position of the remainder [r] of a division by [d] with respect to
    one half. *)
Definition loc_of_rem (d r : Z) : location :=
  if r =? 0 then loc_Exact else loc_Inexact (2 * r ?= d).

(** The double nearest to [(-1)^neg * m * 10^e]: what a decimal
    literal and [float(str)] evaluate to. *)
Definition of_decimal (neg : bool) (m : N) (e : Z) : float :=
  match m with
  | N0 => S754_zero neg
  | Npos p =>
      if 0 <=? e then binary_round prec emax neg (Z.to_pos (Zpos p * 10 ^ e)) 0
      else
        let d := 10 ^ (- e) in
        let s := Z.max 0 (64 + Z.log2 d - Z.log2 (Zpos p)) in
        let '(q, r) := Z.div_eucl (Zpos p * 2 ^ s) d in
        binary_round_aux prec emax neg q (- s) (loc_of_rem d r)
  end.

Definition one : float := of_decimal false 1 0.
Definition zero : float := S754_zero false.

(** [x == y] and [x != y] on floats. *)
Definition eqb (x y : float) : bool := SFeqb x y.
Definition neqb (x y : float) : bool := negb (SFeqb x y).

(** Truth value of a float: false for both zeros only. *)
Definition truthy (x : float) : bool :=
  match x with
  | S754_zero _ => false
  | _ => true
  end.

Definition mul (x y : float) : float := SFmul prec emax x y.
Definition add (x y : float) : float := SFadd prec emax x y.
Definition ltb (x y : float) : bool := SFltb x y.

(** C's [fmod]: the result has the sign of [x] and is exact. *)
Definition fmod (x y : float) : float :=
  match x, y with
  | S754_nan, _ | _, S754_nan => S754_nan
  | S754_infinity _, _ => S754_nan
  | _, S754_zero _ => S754_nan
  | S754_zero s, _ => S754_zero s
  | S754_finite _ _ _, S754_infinity _ => x
  | S754_finite sx mx ex, S754_finite _ my ey =>
      let e := Z.min ex ey in
      let r := Z.rem (Zpos mx * 2 ^ (ex - e)) (Zpos my * 2 ^ (ey - e)) in
      binary_normalize prec emax (cond_Zopp sx r) e sx
  end.

(** [x % y] as [float_rem] of CPython computes it; [None] stands for
    [ZeroDivisionError]. *)
Definition rem (x y : float) : option float :=
  if eqb y zero then None
  else
    let m := fmod x y in
    Some (if truthy m
          then if negb (Bool.eqb (ltb y zero) (ltb m zero)) then add m y else m
          else S754_zero (match y with
                          | S754_zero s | S754_infinity s | S754_finite s _ _ => s
                          | S754_nan => false
                          end)).

End Float64.

Import Float64.

(** ** Characters and strings *)

Definition code (c : ascii) : N := N_of_ascii c.

Definition in_range (lo hi : N) (c : ascii) : bool :=
  ((lo <=? code c) && (code c <=? hi))%N.

Definition is_char (a c : ascii) : bool := Ascii.eqb a c.

(** [[0-9]] *)
Definition is_digit (c : ascii) : bool := in_range 48 57 c.

(** [\s] of a [str] pattern: the characters for which [str.isspace]
    holds. *)
Definition is_space (c : ascii) : bool :=
  in_range 9 13 c || in_range 28 32 c || is_char "133" c || is_char "160" c.

(** [\w] of a [str] pattern: [str.isalnum] or the underscore. *)
Definition is_word (c : ascii) : bool :=
  in_range 48 57 c || in_range 65 90 c || in_range 97 122 c || is_char "_" c
  || is_char "170" c || is_char "178" c || is_char "179" c || is_char "181" c
  || is_char "185" c || is_char "186" c || in_range 188 190 c
  || in_range 192 214 c || in_range 216 246 c || in_range 248 255 c.

(** [str.lower], character by character: below U+0100 every upper-case
    letter is 32 below its lower-case form. *)
Definition lower_char (c : ascii) : ascii :=
  if in_range 65 90 c || in_range 192 214 c || in_range 216 222 c
  then ascii_of_N (code c + 32)
  else c.

Fixpoint lower (s : string) : string :=
  match s with
  | EmptyString => EmptyString
  | String c s' => String (lower_char c) (lower s')
  end.

Fixpoint map_string (f : ascii -> ascii) (s : string) : string :=
  match s with
  | EmptyString => EmptyString
  | String c s' => String (f c) (map_string f s')
  end.

(** The longest prefix of [s] made of characters of the class [p], and
    what follows it. *)
Fixpoint span (p : ascii -> bool) (s : string) : string * string :=
  match s with
  | EmptyString => (EmptyString, EmptyString)
  | String c s' =>
      if p c then let '(a, b) := span p s' in (String c a, b)
      else (EmptyString, s)
  end.

Fixpoint drop_while (p : ascii -> bool) (s : string) : string :=
  match s with
  | EmptyString => EmptyString
  | String c s' => if p c then drop_while p s' else s
  end.

Definition is_empty (s : string) : bool :=
  match s with
  | EmptyString => true
  | String _ _ => false
  end.

(** ** [float(str)] *)

Module PyFloat.

(** [Py_ISSPACE] of C. *)
Definition c_isspace (c : ascii) : bool := in_range 9 13 c || is_char " " c.

(** [Py_TOLOWER] of C. *)
Definition c_tolower (c : ascii) : ascii :=
  if in_range 65 90 c then ascii_of_N (code c + 32) else c.

(** [_PyUnicode_TransformDecimalAndSpaceToASCII]: a character from
    U+007F on becomes a space if it is white space and a question mark
    otherwise (no character of the range is a decimal digit). *)
Definition to_ascii (c : ascii) : ascii :=
  if (code c <? 127)%N then c
  else if is_space c then " "%char else "?"%char.

(** [_Py_string_to_number_with_underscores]: an underscore is dropped
    when it stands between two digits and is an error elsewhere. *)
Fixpoint drop_underscores (prev : ascii) (s : string) : option string :=
  match s with
  | EmptyString => if is_char "_" prev then None else Some EmptyString
  | String c s' =>
      if is_char "_" c then
        if is_digit prev then drop_underscores c s' else None
      else if is_char "_" prev && negb (is_digit c) then None
      else option_map (String c) (drop_underscores c s')
  end.

Fixpoint rstrip (s : string) : string :=
  match s with
  | EmptyString => EmptyString
  | String c s' =>
      let r := rstrip s' in
      if is_empty r && c_isspace c then EmptyString else String c r
  end.

Definition strip (s : string) : string := rstrip (drop_while c_isspace s).

(** Value of a string of decimal digits. *)
Fixpoint digits_value (acc : N) (s : string) : N :=
  match s with
  | EmptyString => acc
  | String c s' => digits_value (10 * acc + (code c - 48))%N s'
  end.

Definition split_sign (s : string) : bool * string :=
  match s with
  | String "-" s' => (true, s')
  | String "+" s' => (false, s')
  | _ => (false, s)
  end.

(** The exponent part: empty, or [e] or [E], a sign, one digit at
    least and nothing after it. *)
Definition parse_exponent (s : string) : option Z :=
  match s with
  | EmptyString => Some 0
  | String c s' =>
      if is_char "e" c || is_char "E" c then
        let '(neg, t) := split_sign s' in
        let '(ds, rest) := span is_digit t in
        if is_empty ds || negb (is_empty rest) then None
        else
          let v := Z.of_N (digits_value 0 ds) in
          Some (if neg then - v else v)
      else None
  end.

(** [PyOS_string_to_double] on the whole of [s]: [inf], [infinity] and
    [nan] in any case, or a decimal number with an optional exponent. *)
Definition parse_number (s : string) : option float :=
  let '(neg, t) := split_sign s in
  let l := map_string c_tolower t in
  if String.eqb l "inf" || String.eqb l "infinity" then Some (S754_infinity neg)
  else if String.eqb l "nan" then Some S754_nan
  else
    let '(ip, t1) := span is_digit t in
    let '(fp, t2) :=
      match t1 with
      | String "." t1' => span is_digit t1'
      | _ => (EmptyString, t1)
      end in
    if is_empty ip && is_empty fp then None
    else
      match parse_exponent t2 with
      | None => None
      | Some e =>
          Some (of_decimal neg (digits_value 0 (ip +:+ fp))
                  (e - Z.of_nat (String.length fp)))
      end.

(** [float(s)] for a string [s]; [None] stands for [ValueError]. *)
Definition float_of_str (s : string) : option float :=
  match drop_underscores "000" (map_string to_ascii s) with
  | None => None
  | Some t => parse_number (strip t)
  end.

End PyFloat.

(** ** Regular expressions of the [re] module

    The fragment the program uses, matched the way [sre] does: by
    backtracking, the leftmost alternative and the longest repetition
    tried first. *)

Module Re.

Inductive re : Type :=
| Chr (p : ascii -> bool)          (* one character of a class *)
| Lit (l : string)                 (* a literal text *)
| Seq (a b : re)                   (* ab *)
| Alt (a b : re)                   (* a|b *)
| Opt (a : re)                     (* a? *)
| Star (p : ascii -> bool)         (* [class]* *)
| Group (name : string) (a : re)   (* (?P<name>a), or (a) under its number *)
| Dollar.                          (* $ without re.MULTILINE *)

(** [[class]+] *)
Definition Plus (p : ascii -> bool) : re := Seq (Chr p) (Star p).

(** Groups that took part in a match, the latest first. *)
Definition captures : Type := list (string * string).

Fixpoint group (caps : captures) (name : string) : option string :=
  match caps with
  | [] => None
  | (n, v) :: caps' => if String.eqb n name then Some v else group caps' name
  end.

Fixpoint strip_prefix (l s : string) : option string :=
  match l, s with
  | EmptyString, _ => Some s
  | String a l', String c s' => if Ascii.eqb a c then strip_prefix l' s' else None
  | String _ _, EmptyString => None
  end.

Fixpoint take_chars (n : nat) (s : string) : string :=
  match n, s with
  | S n', String c s' => String c (take_chars n' s')
  | _, _ => EmptyString
  end.

Definition newline : string := String "010" EmptyString.

Section Matcher.
Context {R : Type}.

Fixpoint star (p : ascii -> bool) (s : string) (k : string -> option R)
  : option R :=
  match s with
  | EmptyString => k s
  | String c s' =>
      if p c then
        match star p s' k with
        | Some x => Some x
        | None => k s
        end
      else k s
  end.

(** [run r s caps k]: match [r] at the start of [s] and hand what is
    left of [s] to [k]; when [k] refuses, try the next way to match. *)
Fixpoint run (r : re) (s : string) (caps : captures)
    (k : string -> captures -> option R) : option R :=
  match r with
  | Chr p =>
      match s with
      | String c s' => if p c then k s' caps else None
      | EmptyString => None
      end
  | Lit l =>
      match strip_prefix l s with
      | Some s' => k s' caps
      | None => None
      end
  | Seq a b => run a s caps (fun s' caps' => run b s' caps' k)
  | Alt a b =>
      match run a s caps k with
      | Some x => Some x
      | None => run b s caps k
      end
  | Opt a =>
      match run a s caps k with
      | Some x => Some x
      | None => k s caps
      end
  | Star p => star p s (fun s' => k s' caps)
  | Group name a =>
      run a s caps
        (fun s' caps' =>
           k s' ((name, take_chars (String.length s - String.length s') s) :: caps'))
  | Dollar =>
      if is_empty s || String.eqb s newline then k s caps else None
  end.
End Matcher.

(** [pattern.fullmatch(s)]: the groups of the first way to match the
    whole of [s]. *)
Definition fullmatch (r : re) (s : string) : option captures :=
  run r s [] (fun s' caps => if is_empty s' then Some caps else None).

(** [pattern.match(s)]: what follows the match at the start of [s]. *)
Definition match_prefix (r : re) (s : string) : option string :=
  run r s [] (fun s' _ => Some s').

(** [re.sub(r, repl, s)] for a pattern that matches no empty text: scan
    from the left, replace each match and go on after it. [skip] counts
    the characters of the current match still to pass over. A match of
    the empty text is left alone. *)
Fixpoint sub_from (r : re) (repl : string) (skip : nat) (s : string) : string :=
  match s with
  | EmptyString => EmptyString
  | String c s' =>
      match skip with
      | S n => sub_from r repl n s'
      | O =>
          match match_prefix r s with
          | Some rest =>
              match (String.length s - String.length rest)%nat with
              | O => String c (sub_from r repl 0 s')
              | S n => repl +:+ sub_from r repl n s'
              end
          | None => String c (sub_from r repl 0 s')
          end
      end
  end.

Definition sub (r : re) (repl : string) (s : string) : string :=
  sub_from r repl 0 s.

End Re.

Import Re.

(** ** [ingestion/utils/__init__.py] *)

(** [[\r\n ]] *)
Definition is_blank (c : ascii) : bool :=
  is_char "013" c || is_char "010" c || is_char " " c.

(** [[- ]] *)
Definition is_dash_or_space (c : ascii) : bool :=
  is_char "-" c || is_char " " c.

Definition blanks_re : re := Plus is_blank.
Definition well_re : re := Alt (Lit "Wellbore") (Lit "Well").
Definition trailing_re : re := Seq (Plus is_dash_or_space) Dollar.

Definition clean_name (s : string) : string :=
  let s := sub blanks_re " " s in
  let s := sub well_re "" s in
  let s := sub trailing_re "" s in
  s.

(** [chunks(lst, n)] is a generator; the list of what it yields is
    modelled. [range(0, len(lst), n)] raises [ValueError] for [n = 0] and
    is empty for [n < 0]. *)
Fixpoint range_from (fuel : nat) (i stop step : Z) : list Z :=
  match fuel with
  | O => []
  | S fuel' => if i <? stop then i :: range_from fuel' (i + step) stop step else []
  end.

Definition range (start stop step : Z) : result (list Z) :=
  if step =? 0 then Raise ValueError
  else if step <? 0 then
    (* a descending range; with [start = 0 <= stop] it has no element *)
    Ok (if stop <? start
        then map (fun j => start + j * step)
               (map Z.of_nat (seq 0 (Z.to_nat ((start - stop - step - 1) / (- step)))))
        else [])
  else Ok (range_from (Z.to_nat (stop - start)) start stop step).

(** [lst[lo:hi]]: a negative bound counts from the end, and both bounds
    are clamped to the list. *)
Definition slice {A} (lst : list A) (lo hi : Z) : list A :=
  let len := Z.of_nat (length lst) in
  let clamp i := Z.max 0 (Z.min len (if i <? 0 then i + len else i)) in
  let lo' := clamp lo in
  let hi' := clamp hi in
  firstn (Z.to_nat (hi' - lo')) (skipn (Z.to_nat lo') lst).

Definition chunks {A} (lst : list A) (n : Z) : result (list (list A)) :=
  let* starts := range 0 (Z.of_nat (length lst)) n in
  Ok (map (fun i => slice lst i (i + n)) starts).

(** ** [ingestion/utils/measurements.py] *)

Inductive DistanceUnitEnum : Type := meter | inch | foot.

Record DistanceUnit : Type := mkDistanceUnit {
  du_unit : DistanceUnitEnum;
  du_factor : option float
}.

(** Modelled from the spec: the class [DistanceUnit] belongs to the client
    library and its declaration is not among the sources; by the data
    model of the specification its [factor] defaults to 1.0 when the
    constructor is given none. *)
Definition DistanceUnit_default_factor : option float := Some one.

Record Distance : Type := mkDistance {
  d_value : float;
  d_unit : DistanceUnitEnum
}.

Record DepthIndexColumn : Type := mkDepthIndexColumn {
  column_external_id : string;
  dic_unit : DistanceUnit;
  dic_type : string
}.

Definition _unit_map_by_unit : list (DistanceUnitEnum * list string) :=
  [ (meter, ["m"; "meter"; "meters"]);
    (inch, ["in"; "inch"; "inches"]);
    (foot, ["feet"; "foot"; "ft"]) ].

(** [{vv: k for k, v in _unit_map_by_unit.items() for vv in v}]: a later
    entry would replace an earlier one under the same key. *)
Definition _unit_map : gmap string DistanceUnitEnum :=
  fold_left (fun m '(k, v) => fold_left (fun m vv => <[vv := k]> m) v m)
    _unit_map_by_unit ∅.

(** [[+-]] *)
Definition is_sign (c : ascii) : bool := is_char "+" c || is_char "-" c.

Definition factor_re : re :=
  Seq (Opt (Chr is_sign))
    (Seq (Opt (Group "2" (Seq (Star is_digit) (Chr (is_char ".")))))
       (Plus is_digit)).

(** [(?P<factor>[+-]?([0-9]*[.])?[0-9]+)?\s*(?P<unit>\w+)] *)
Definition _unit_regex : re :=
  Seq (Opt (Group "factor" factor_re))
    (Seq (Star is_space) (Group "unit" (Plus is_word))).

Definition parse_unit (unit : string) : result (option DistanceUnit) :=
  if String.eqb unit "mm" then
    Ok (Some (mkDistanceUnit meter (Some (of_decimal false 1 (-3)))))
  else if String.eqb unit "m rkb" then
    Ok (Some (mkDistanceUnit meter DistanceUnit_default_factor))
  else
    match fullmatch _unit_regex unit with
    | Some caps =>
        let unit_match := group caps "unit" in
        let factor_match := group caps "factor" in
        let* factor :=
          match factor_match with
          | Some fm =>
              if is_empty fm then Ok one
              else
                match PyFloat.float_of_str fm with
                | Some f => Ok f
                | None => Raise ValueError
                end
          | None => Ok one
          end in
        match unit_match ≫= (fun w => _unit_map !! w) with
        | Some u => Ok (Some (mkDistanceUnit u (Some factor)))
        | None => Ok None
        end
    | None => Ok None
    end.

Definition parse_distance (value unit : option string) : result (option Distance) :=
  match value, unit with
  | Some value, Some unit =>
      match PyFloat.float_of_str value with
      | None => Ok None
      | Some float_value =>
          let* parsed_unit := parse_unit unit in
          match parsed_unit with
          | None => Ok None
          | Some pu =>
              match du_factor pu with
              | Some f =>
                  if neqb f one then Ok None
                  else Ok (Some (mkDistance float_value (du_unit pu)))
              | None => Ok (Some (mkDistance float_value (du_unit pu)))
              end
          end
      end
  | _, _ => Ok None
  end.

(** A sequence column, a dictionary with the optional entries
    ["externalId"], ["description"] and ["metadata"]. *)
Record Column : Type := mkColumn {
  col_externalId : option string;
  col_description : option string;
  col_metadata : option (gmap string string)
}.

Definition _parse (column : Column) : string * string * string :=
  let unit := lower (default "" (default ∅ (col_metadata column) !! "unit")) in
  let external_id := lower (default "" (col_externalId column)) in
  let desc := lower (default "" (col_description column)) in
  (external_id, desc, unit).

Definition measured_depth (column : Column) : result (option DepthIndexColumn) :=
  let '(_, desc, unit) := _parse column in
  let external_id := default "" (col_externalId column) in
  if existsb (String.eqb (lower external_id)) ["md"; "tdep"; "depth"; "dept"] then
    let* parsed_unit := parse_unit unit in
    match parsed_unit with
    | None => Ok None
    | Some pu => Ok (Some (mkDepthIndexColumn external_id pu "measured depth"))
    end
  else Ok None.

(** ** Records of the destination service and of the source system *)

(** An asset of the source system; [metadata] is its free-text
    dictionary. *)
Record Asset : Type := mkAsset {
  external_id : string;
  parent_external_id : option string;
  name : string;
  metadata : gmap string string
}.

Record AssetSource : Type := mkAssetSource {
  asset_external_id : string;
  source_name : string
}.

Record Wellhead : Type := mkWellhead {
  wh_x : float;
  wh_y : float;
  wh_crs : string
}.

Record Datum : Type := mkDatum {
  datum_value : float;
  datum_unit : DistanceUnitEnum;
  datum_reference : string
}.

(** What a mapper passes as [datum]: the EDM mapper a [Distance], the
    OSDU mapper a [Datum]. *)
Inductive datum_arg : Type :=
| DatumDistance (d : Distance)
| DatumRecord (d : Datum).

Record WellIngestion (date : Type) : Type := mkWellIngestion {
  wi_name : string;
  wi_description : option string;
  wi_matching_id : string;
  wi_source : AssetSource;
  wi_wellhead : Wellhead;
  wi_water_depth : option Distance;
  wi_operator : option string;
  wi_spud_date : option date
}.
Arguments mkWellIngestion {date}.
Arguments wi_name {date}.
Arguments wi_description {date}.
Arguments wi_matching_id {date}.
Arguments wi_source {date}.
Arguments wi_wellhead {date}.
Arguments wi_water_depth {date}.
Arguments wi_operator {date}.
Arguments wi_spud_date {date}.

Record WellboreIngestion : Type := mkWellboreIngestion {
  wbi_name : string;
  wbi_description : string;
  wbi_matching_id : string;
  wbi_well_asset_external_id : string;
  wbi_source : AssetSource;
  wbi_datum : option datum_arg
}.

(** The calls on the destination client, in the order they are made; a
    call is taken to return. *)
Inductive call (date : Type) : Type :=
| wells_ingest (chunk : list (WellIngestion date))
| wellbores_ingest (chunk : list WellboreIngestion).
Arguments wells_ingest {date}.
Arguments wellbores_ingest {date}.

(** The well records handed to the destination service by a list of
    calls. *)
Definition emitted_wells {date} (calls : list (call date)) : list (WellIngestion date) :=
  concat (map (fun c => match c with
                        | wells_ingest chunk => chunk
                        | wellbores_ingest _ => []
                        end) calls).

Definition emitted_wellbores {date} (calls : list (call date)) : list WellboreIngestion :=
  concat (map (fun c => match c with
                        | wells_ingest _ => []
                        | wellbores_ingest chunk => chunk
                        end) calls).

(** [d[key]] on a dictionary. *)
Definition getitem (d : gmap string string) (key : string) : result string :=
  match d !! key with
  | Some v => Ok v
  | None => Raise (KeyError key)
  end.

(** [float(s)] outside a [try]. *)
Definition to_float (s : string) : result float :=
  match PyFloat.float_of_str s with
  | Some f => Ok f
  | None => Raise ValueError
  end.

(** [for x in xs: ...] over a body that may raise, threading the values
    of the loop's variables. *)
Fixpoint for_each {A S} (body : S -> A -> result S) (xs : list A) (st : S) : result S :=
  match xs with
  | [] => Ok st
  | x :: xs' => let* st' := body st x in for_each body xs' st'
  end.

(** The dictionary from a parent's external id to its wellbores:
    [defaultdict(lambda: [])] filled with [append]. *)
Definition wellbores_by_parent (wellbore_assets : list Asset)
  : gmap (option string) (list Asset) :=
  fold_left
    (fun d wb =>
       <[parent_external_id wb := default [] (d !! parent_external_id wb) ++ [wb]]> d)
    wellbore_assets ∅.

(** The two loops that close both well mappers:
    [for wi_chunk in chunks(well_ingestions, 1000): wm.wells.ingest(wi_chunk)]
    and the same for the wellbores. The calls are not guarded in the
    source: one that raises ends the run there, the calls before it
    made. [upload] gives the calls of a run in which every call returns;
    what the service does is not modelled. *)
Definition upload {date} (well_ingestions : list (WellIngestion date))
    (wellbore_ingestions : list WellboreIngestion) : result (list (call date)) :=
  let* wi_chunks := chunks well_ingestions 1000 in
  let* wb_chunks := chunks wellbore_ingestions 1000 in
  Ok (map wells_ingest wi_chunks ++ map wellbores_ingest wb_chunks).

(** ** [ingestion/edm_wells.py] *)

Section EDM.

(** [datetime] and [datetime.fromisoformat] of the standard library,
    [None] standing for [ValueError]. *)
Variable datetime : Type.
Variable fromisoformat : string -> option datetime.

Definition _water_depth (well_asset : Asset) : result (option Distance) :=
  let water_depth := metadata well_asset !! "WELLHEAD_DEPTH" in
  match water_depth ≫= PyFloat.float_of_str with
  | None => Ok None
  | Some water_depth_float =>
      match metadata well_asset !! "WELLHEAD_DEPTH_DSDSUNIT" with
      | None => Ok None
      | Some unit =>
          let* parsed_unit := parse_unit unit in
          match parsed_unit with
          | None => Ok None
          | Some pu =>
              match du_factor pu with
              | Some f =>
                  if neqb f one then Ok None
                  else Ok (Some (mkDistance water_depth_float (du_unit pu)))
              | None => Ok (Some (mkDistance water_depth_float (du_unit pu)))
              end
          end
      end
  end.

Definition _spud_date (well_asset : Asset) : option datetime :=
  match metadata well_asset !! "SPUD_DATE" with
  | Some spud_date => fromisoformat spud_date
  | None => None
  end.

(** [{x.external_id: x for x in datums}] *)
Definition datum_dict_of (datums : list Asset) : gmap string Asset :=
  fold_left (fun d x => <[external_id x := x]> d) datums ∅.

Definition edm_wellbore (datum_dict : gmap string Asset) (well_asset wellbore : Asset)
  : result WellboreIngestion :=
  let* datum :=
    match metadata wellbore !! "DRILLING_DATUM_ID_EDM" with
    | Some datum_key =>
        match datum_dict !! (datum_key +:+ "||EDMDF") with
        | Some datum_asset =>
            parse_distance (metadata datum_asset !! "DATUM_ELEVATION")
              (metadata datum_asset !! "DATUM_ELEVATION_DSDUNIT")
        | None => Ok None
        end
    | None => Ok None
    end in
  let wellbore_name := clean_name (name wellbore) in
  Ok (mkWellboreIngestion wellbore_name wellbore_name
        (clean_name (external_id wellbore)) (external_id well_asset)
        (mkAssetSource (external_id wellbore) "EDM")
        (option_map DatumDistance datum)).

(** The variables the loop over the wells updates. *)
Record edm_state : Type := mkEdmState {
  edm_wells : list (WellIngestion datetime);
  edm_wellbores : list WellboreIngestion;
  well_matching_ids : gset string
}.

Definition edm_well (by_parent : gmap (option string) (list Asset))
    (datum_dict : gmap string Asset) (st : edm_state) (well_asset : Asset)
  : result edm_state :=
  let wellbores := default [] (by_parent !! Some (external_id well_asset)) in
  let operator := metadata well_asset !! "WELL_OPERATOR" in
  let* longitude := let* v := getitem (metadata well_asset) "GEO_LONGITUDE" in to_float v in
  let* latitude := let* v := getitem (metadata well_asset) "GEO_LATITUDE" in to_float v in
  let description := metadata well_asset !! "WELL_DESC" in
  let well_name := clean_name (name well_asset) in
  let* water_depth := _water_depth well_asset in
  let wi :=
    mkWellIngestion well_name description well_name
      (mkAssetSource (external_id well_asset) "EDM")
      (mkWellhead longitude latitude "EPSG:4326")
      water_depth operator (_spud_date well_asset) in
  if decide (wi_matching_id wi ∈ well_matching_ids st) then Ok st
  else
    let* wbis :=
      for_each (fun acc wellbore =>
                  let* wbi := edm_wellbore datum_dict well_asset wellbore in
                  Ok (acc ++ [wbi]))
        wellbores (edm_wellbores st) in
    Ok (mkEdmState (edm_wells st ++ [wi]) wbis
          ({[wi_matching_id wi]} ∪ well_matching_ids st)).

(** The records built by [ingest_wells_and_wellbores_edm] before it
    uploads them. *)
Definition edm_records (well_assets wellbore_assets datums : list Asset)
  : result edm_state :=
  for_each (edm_well (wellbores_by_parent wellbore_assets) (datum_dict_of datums))
    well_assets (mkEdmState [] [] ∅).

Definition ingest_wells_and_wellbores_edm
    (well_assets wellbore_assets datums : list Asset) : result (list (call datetime)) :=
  let* st := edm_records well_assets wellbore_assets datums in
  upload (edm_wells st) (edm_wellbores st).

End EDM.

(** ** [ingestion/01-wells-and-wellbores.py] *)

Section OSDU.

(** The type of [spud_date] in a well record, which this mapper leaves
    unset. *)
Variable datetime : Type.

(** [get_water_depth] returns [None] before anything else. *)
Definition get_water_depth (well_asset : Asset) : option Distance := None.

(** The variables of [ingest_wells_and_wellbores_osdu] that its loops
    update. [osdu_datum] is the local variable [datum]: [None] while no
    assignment has bound it. *)
Record osdu_state : Type := mkOsduState {
  osdu_wells : list (WellIngestion datetime);
  osdu_wellbores : list WellboreIngestion;
  osdu_datum : option Datum
}.

(** One turn of [for wellbore in wellbores]. *)
Definition osdu_wellbore (well_asset : Asset) (st : osdu_state) (wellbore : Asset)
  : result osdu_state :=
  let datum_elevation := metadata wellbore !! "VerticalMeasurement_Measured_From" in
  let datum_reference := metadata wellbore !! "VerticalMeasurementType_Measured_From" in
  let* datum_var :=
    match datum_elevation, datum_reference with
    | Some elevation, Some reference =>
        let* v := to_float elevation in
        Ok (Some (mkDatum v meter reference))
    | _, _ => Ok (osdu_datum st)
    end in
  let wellbore_name := clean_name (name wellbore) in
  let* datum :=
    match datum_var with
    | Some d => Ok d
    | None => Raise (UnboundLocalError "datum")
    end in
  let wbi :=
    mkWellboreIngestion wellbore_name wellbore_name
      (clean_name (external_id wellbore)) (external_id well_asset)
      (mkAssetSource (external_id wellbore) "OSDU")
      (Some (DatumRecord datum)) in
  Ok (mkOsduState (osdu_wells st) (osdu_wellbores st ++ [wbi]) datum_var).

(** One turn of [for well_asset in well_assets]. *)
Definition osdu_well (by_parent : gmap (option string) (list Asset))
    (st : osdu_state) (well_asset : Asset) : result osdu_state :=
  let wellbores := default [] (by_parent !! Some (external_id well_asset)) in
  let first_wellbore := head wellbores in
  let operator := first_wellbore ≫= (fun wb => metadata wb !! "CurrentOperator") in
  let* longitude :=
    let* v := getitem (metadata well_asset) "Wgs84SpatialLocationX" in to_float v in
  let* latitude :=
    let* v := getitem (metadata well_asset) "Wgs84SpatialLocationY" in to_float v in
  let well_name := clean_name (name well_asset) in
  let wi :=
    mkWellIngestion well_name (Some well_name) well_name
      (mkAssetSource (external_id well_asset) "OSDU")
      (mkWellhead longitude latitude "EPSG:4326")
      (get_water_depth well_asset) operator None in
  for_each (osdu_wellbore well_asset) wellbores
    (mkOsduState (osdu_wells st ++ [wi]) (osdu_wellbores st) (osdu_datum st)).

(** The records built by [ingest_wells_and_wellbores_osdu] before it
    uploads them. *)
Definition osdu_records (well_assets wellbore_assets : list Asset) : result osdu_state :=
  for_each (osdu_well (wellbores_by_parent wellbore_assets))
    well_assets (mkOsduState [] [] None).

Definition ingest_wells_and_wellbores_osdu
    (well_assets wellbore_assets : list Asset) (source : string)
  : result (list (call datetime)) :=
  let* st := osdu_records well_assets wellbore_assets in
  upload (osdu_wells st) (osdu_wellbores st).

End OSDU.

(** ** [ingestion/02-trajectories.py] *)

Inductive AngleUnitEnum : Type := degree | radian.

Record SequenceSource : Type := mkSequenceSource {
  sequence_external_id : string;
  seq_source_name : string
}.

Record TrajectoryIngestionRow : Type := mkTrajectoryIngestionRow {
  measured_depth_of : float;
  inclination : float;
  azimuth : float
}.

Record TrajectoryIngestion : Type := mkTrajectoryIngestion {
  ti_wellbore_asset_external_id : string;
  ti_source : SequenceSource;
  ti_measured_depth_unit : DistanceUnitEnum;
  ti_inclination_unit : AngleUnitEnum;
  ti_azimuth_unit : AngleUnitEnum;
  ti_is_definitive : bool;
  ti_rows : list TrajectoryIngestionRow
}.

(** A sequence: its external id and, for each column, what
    [col.get("externalId")] gives. *)
Record Sequence : Type := mkSequence {
  seq_external_id : string;
  seq_columns : list (option string)
}.

(** [SequenceData.items()]: row numbers and rows of cells, a cell being a
    number or [None]. *)
Definition SequenceData : Type := list (Z * list (option float)).

(** [find_index]: the first column named [extid]. *)
Fixpoint index_of (extid : string) (columns : list (option string)) (i : nat) : option nat :=
  match columns with
  | [] => None
  | col :: columns' =>
      if decide (col = Some extid) then Some i else index_of extid columns' (S i)
  end.

Definition find_index (sequence : Sequence) (extid : string) : result nat :=
  match index_of extid (seq_columns sequence) 0 with
  | Some index => Ok index
  | None => Raise (LookupException extid)
  end.

(** [values[i]] *)
Definition cell (values : list (option float)) (i : nat) : result (option float) :=
  match values !! i with
  | Some v => Ok v
  | None => Raise IndexError
  end.

(** [if v] for a cell. *)
Definition cell_truthy (v : option float) : bool :=
  match v with
  | Some x => truthy x
  | None => false
  end.

Definition f360 : float := of_decimal false 360 0.

(** The body of [for row_number, values in data.items()]: the row to
    append, or [None] after [continue]. *)
Definition trajectory_row (factor : option float) (md_index inc_index azim_index : nat)
    (values : list (option float)) : result (option TrajectoryIngestionRow) :=
  let* md :=
    let* v := cell values md_index in
    if cell_truthy v then
      match v, factor with
      | Some x, Some f => Ok (Some (mul x f))
      | _, _ => Raise TypeError
      end
    else Ok None in
  let* inc := cell values inc_index in
  let* azim :=
    let* v := cell values azim_index in
    if cell_truthy v then
      match v with
      | Some x =>
          match rem x f360 with
          | Some a => Ok (Some a)
          | None => Raise ZeroDivisionError
          end
      | None => Raise TypeError
      end
    else Ok None in
  match md, inc, azim with
  | Some md, Some inc, Some azim => Ok (Some (mkTrajectoryIngestionRow md inc azim))
  | _, _, _ => Ok None
  end.

Definition create_trajectory_ingestion
    (wellbore_asset_external_id : string) (sequence : Sequence) (data : SequenceData)
    (md_column : DepthIndexColumn) (inclination_column azimuth_column : string * AngleUnitEnum)
    (source_name : string) (is_definitive : bool) : result (option TrajectoryIngestion) :=
  let '(inc_extid, inc_unit) := inclination_column in
  let '(azim_extid, azim_unit) := azimuth_column in
  let* md_index := find_index sequence (column_external_id md_column) in
  let* inc_index := find_index sequence inc_extid in
  let* azim_index := find_index sequence azim_extid in
  let* rows :=
    for_each (fun rows '(row_number, values) =>
                let* row := trajectory_row (du_factor (dic_unit md_column))
                              md_index inc_index azim_index values in
                Ok (match row with
                    | Some r => rows ++ [r]
                    | None => rows
                    end))
      data [] in
  match rows with
  | [] => Ok None
  | _ :: _ =>
      Ok (Some (mkTrajectoryIngestion wellbore_asset_external_id
                  (mkSequenceSource (seq_external_id sequence) source_name)
                  (du_unit (dic_unit md_column)) inc_unit azim_unit is_definitive rows))
  end.

(** ** Predicates on strings used in the statements *)

Fixpoint all_chars (p : ascii -> bool) (s : string) : bool :=
  match s with
  | EmptyString => true
  | String c s' => p c && all_chars p s'
  end.

(** [needle in s] *)
Fixpoint contains (needle s : string) : bool :=
  match s with
  | EmptyString => is_empty needle
  | String _ s' => bool_decide (is_Some (strip_prefix needle s)) || contains needle s'
  end.

(** What [$] accepts. *)
Definition at_end (s : string) : bool := is_empty s || String.eqb s newline.

Definition collapse_blanks (s : string) : string := sub blanks_re " " s.

(** No blank is followed by a blank. *)
Fixpoint blanks_single (s : string) : bool :=
  match s with
  | EmptyString => true
  | String c s' =>
      negb (is_blank c && match s' with
                          | EmptyString => false
                          | String d _ => is_blank d
                          end)
      && blanks_single s'
  end.

Definition not_cr_lf (c : ascii) : bool :=
  negb (is_char "013" c || is_char "010" c).

Definition remove_well (s : string) : string := sub well_re "" s.

Definition strip_trailing (s : string) : string := sub trailing_re "" s.

(** The last character of [s] is a hyphen or a space. *)
Fixpoint ends_dash_or_space (s : string) : bool :=
  match s with
  | EmptyString => false
  | String c s' =>
      match s' with
      | EmptyString => is_dash_or_space c
      | String _ _ => ends_dash_or_space s'
      end
  end.

(** ** What a pattern can match

    [lang r t]: the text [t] is one that [r] can match. *)
Fixpoint lang (r : re) (t : string) : Prop :=
  match r with
  | Chr p => exists c, t = String c EmptyString /\ p c = true
  | Lit l => t = l
  | Seq a b => exists t1 t2, t = t1 +:+ t2 /\ lang a t1 /\ lang b t2
  | Alt a b => lang a t \/ lang b t
  | Opt a => t = EmptyString \/ lang a t
  | Star p => all_chars p t = true
  | Group _ a => lang a t
  | Dollar => t = EmptyString
  end.

(** Every group of [r] records a text that satisfies [G] under its
    name. *)
Fixpoint groups_sound (G : string -> string -> Prop) (r : re) : Prop :=
  match r with
  | Group name a => (forall t, lang a t -> G name t) /\ groups_sound G a
  | Seq a b | Alt a b => groups_sound G a /\ groups_sound G b
  | Opt a => groups_sound G a
  | Chr _ | Lit _ | Star _ | Dollar => True
  end.

Definition captures_ok (G : string -> string -> Prop) (caps : captures) : Prop :=
  forall name v, In (name, v) caps -> G name v.

(** The characters a factor is written with. *)
Definition is_numeric (c : ascii) : bool :=
  is_digit c || is_char "." c || is_sign c.

(** A decimal without sign: digits, or digits, a point and digits with
    one at least after the point. *)
Definition unsigned_decimal (b : string) : Prop :=
  (exists ds d ds', b = ds +:+ String "." (String d ds')
                    /\ all_chars is_digit ds = true
                    /\ is_digit d = true /\ all_chars is_digit ds' = true)
  \/ (exists d ds', b = String d ds'
                    /\ is_digit d = true /\ all_chars is_digit ds' = true).

(** The rows of what [create_trajectory_ingestion] returns, none for
    [None]. *)
Definition rows_of (r : option TrajectoryIngestion) : list TrajectoryIngestionRow :=
  match r with
  | Some traj => ti_rows traj
  | None => []
  end.

(** A cell that is there and holds [None]. *)
Definition absent (values : list (option float)) (i : nat) : Prop :=
  values !! i = Some None.

(** Row [values] is mapped to [row]: its three cells hold numbers, the
    measured depth is scaled by [factor], the inclination is copied and
    the azimuth is taken modulo 360. *)
Definition row_mapped (factor : option float) (md_index inc_index azim_index : nat)
    (values : list (option float)) (row : TrajectoryIngestionRow) : Prop :=
  exists md inc azim f,
    values !! md_index = Some (Some md)
    /\ values !! inc_index = Some (Some inc)
    /\ values !! azim_index = Some (Some azim)
    /\ factor = Some f
    /\ measured_depth_of row = mul md f
    /\ inclination row = inc
    /\ rem azim f360 = Some (azimuth row).

(** A row [create_trajectory_ingestion] can read: it has a cell at each
    of the three indexes and, when the depth unit has no factor, its
    measured depth is [None] or zero. *)
Definition row_readable (factor : option float) (md_index inc_index azim_index : nat)
    (values : list (option float)) : Prop :=
  is_Some (values !! md_index)
  /\ is_Some (values !! inc_index)
  /\ is_Some (values !! azim_index)
  /\ (factor = None -> forall v, values !! md_index = Some v -> cell_truthy v = false).

(** A row the loop keeps: its three cells hold numbers, and the
    measured depth and the azimuth are not zero. *)
Definition keepable (md_index inc_index azim_index : nat)
    (values : list (option float)) : bool :=
  match values !! md_index, values !! inc_index, values !! azim_index with
  | Some (Some md), Some (Some _), Some (Some azim) => truthy md && truthy azim
  | _, _, _ => false
  end.

(** A sequence with the three columns the trajectory script reads, its
    depth column in foot, and rows to try the mapper on. *)
Definition example_sequence : Sequence :=
  mkSequence "traj-1" [Some "MeasuredDepth"; Some "Inclination"; Some "Azimuth"].

Definition example_md_column : DepthIndexColumn :=
  mkDepthIndexColumn "MeasuredDepth" (mkDistanceUnit foot (Some one)) "measured depth".

Definition number (n : N) : option float := Some (of_decimal false n 0).

Definition example_trajectory (rows : list TrajectoryIngestionRow) : TrajectoryIngestion :=
  mkTrajectoryIngestion "wb-1" (mkSequenceSource "traj-1" "OSDU") foot degree degree true rows.

Definition example_run (data : SequenceData) : result (option TrajectoryIngestion) :=
  create_trajectory_ingestion "wb-1" example_sequence data example_md_column
    ("Inclination", degree) ("Azimuth", degree) "OSDU" true.

(** What identifies a well record, and the same for the asset it is made
    from: the matching id (the cleaned name) and the external id. *)
Definition well_key {date} (wi : WellIngestion date) : string * string :=
  (wi_matching_id wi, asset_external_id (wi_source wi)).

Definition asset_key (well_asset : Asset) : string * string :=
  (clean_name (name well_asset), external_id well_asset).

(** The entries of [l] whose key is neither in [seen] nor carried by an
    earlier entry: the first occurrence of every key. *)
Fixpoint first_occurrences (seen : list string) (l : list (string * string))
  : list (string * string) :=
  match l with
  | [] => []
  | (k, v) :: l' =>
      if decide (k ∈ seen) then first_occurrences seen l'
      else (k, v) :: first_occurrences (seen ++ [k]) l'
  end.

(** Two OSDU wells whose names are cleaned to the same text, and the same
    two wells with the metadata keys of EDM. *)
Definition osdu_well_a : Asset :=
  mkAsset "w1" None "Well A"
    {["Wgs84SpatialLocationX" := "1.5"; "Wgs84SpatialLocationY" := "60"]}.

Definition osdu_well_b : Asset :=
  mkAsset "w2" None "Wellbore A"
    {["Wgs84SpatialLocationX" := "2.5"; "Wgs84SpatialLocationY" := "61"]}.

Definition edm_well_a : Asset :=
  mkAsset "w1" None "Well A" {["GEO_LONGITUDE" := "1.5"; "GEO_LATITUDE" := "60"]}.

Definition edm_well_b : Asset :=
  mkAsset "w2" None "Wellbore A" {["GEO_LONGITUDE" := "2.5"; "GEO_LATITUDE" := "61"]}.

(** A wellbore of the first well without any metadata, and one with a
    datum. *)
Definition wellbore_plain : Asset := mkAsset "b1" (Some "w1") "Wellbore A1" ∅.

Definition wellbore_with_datum : Asset :=
  mkAsset "b2" (Some "w1") "Wellbore A2"
    {["VerticalMeasurement_Measured_From" := "25";
      "VerticalMeasurementType_Measured_From" := "RKB"]}.

(** The wellbores the OSDU mapper visits, in the order it visits them:
    for each well in turn, the wellbores filed under its external id. *)
Definition visited (well_assets wellbore_assets : list Asset) : list Asset :=
  concat (map (fun well_asset =>
                 default [] (wellbores_by_parent wellbore_assets
                               !! Some (external_id well_asset)))
            well_assets).

(** The datum a wellbore provides by itself: [None] when it lacks the
    elevation or the reference key. *)
Definition own_datum (wellbore : Asset) : option (result Datum) :=
  match metadata wellbore !! "VerticalMeasurement_Measured_From",
        metadata wellbore !! "VerticalMeasurementType_Measured_From" with
  | Some elevation, Some reference =>
      Some (let* v := to_float elevation in Ok (mkDatum v meter reference))
  | _, _ => None
  end.

Definition lacks_datum (wellbore : Asset) : Prop := own_datum wellbore = None.

(** [d] is the datum of the last wellbore of [done] that has both keys. *)
Definition carried (done : list Asset) (d : Datum) : Prop :=
  exists before wellbore after,
    done = before ++ wellbore :: after
    /\ own_datum wellbore = Some (Ok d)
    /\ Forall lacks_datum after.

(** [recs] are records for the wellbores [done], one each and in order,
    every one with the datum carried when its wellbore was reached. *)
Inductive emitted_for : list Asset -> list WellboreIngestion -> Prop :=
| emitted_nil : emitted_for [] []
| emitted_snoc (done : list Asset) (recs : list WellboreIngestion)
    (wellbore : Asset) (rec : WellboreIngestion) (d : Datum) :
    emitted_for done recs ->
    carried (done ++ [wellbore]) d ->
    wbi_datum rec = Some (DatumRecord d) ->
    asset_external_id (wbi_source rec) = external_id wellbore ->
    emitted_for (done ++ [wellbore]) (recs ++ [rec]).

(** The longitude and the latitude of an OSDU well are there and are
    numbers. *)
Definition osdu_position_ok (well_asset : Asset) : Prop :=
  exists x y,
    (let* v := getitem (metadata well_asset) "Wgs84SpatialLocationX" in to_float v) = Ok x
    /\ (let* v := getitem (metadata well_asset) "Wgs84SpatialLocationY" in to_float v) = Ok y.

Definition edm_position_ok (well_asset : Asset) : Prop :=
  exists x y,
    (let* v := getitem (metadata well_asset) "GEO_LONGITUDE" in to_float v) = Ok x
    /\ (let* v := getitem (metadata well_asset) "GEO_LATITUDE" in to_float v) = Ok y.

(** What the loops of the OSDU mapper have established once the
    wellbores [done] are passed. *)
Definition datum_invariant (datetime : Type) (done : list Asset)
    (st : osdu_state datetime) : Prop :=
  emitted_for done (osdu_wellbores _ st)
  /\ match osdu_datum _ st with
     | Some d => carried done d
     | None => Forall lacks_datum done
     end.

(** ** Further definitions used in the statements *)

(** The wellbores whose parent is the well [well_asset], in input order. *)
Definition wellbores_of (wellbore_assets : list Asset) (well_asset : Asset) : list Asset :=
  filter (fun wb => parent_external_id wb = Some (external_id well_asset)) wellbore_assets.

(** The wells whose cleaned name is neither in [seen] nor that of an
    earlier well of the list. *)
Fixpoint kept_wells (seen : list string) (well_assets : list Asset) : list Asset :=
  match well_assets with
  | [] => []
  | w :: ws =>
      if decide (clean_name (name w) ∈ seen) then kept_wells seen ws
      else w :: kept_wells (seen ++ [clean_name (name w)]) ws
  end.

(** The wellbore and the well a wellbore record names. *)
Definition wellbore_key (wbi : WellboreIngestion) : string * string :=
  (asset_external_id (wbi_source wbi), wbi_well_asset_external_id wbi).

(** What the OSDU mapper puts in every well record. *)
Definition osdu_well_shape (datetime : Type) (wi : WellIngestion datetime) : Prop :=
  wi_description wi = Some (wi_name wi)
  /\ wi_matching_id wi = wi_name wi
  /\ wi_water_depth wi = None
  /\ wi_spud_date wi = None
  /\ source_name (wi_source wi) = "OSDU".

(** [lang_caps r t caps caps']: [r] can match the text [t], and doing so
    turns the groups recorded so far, [caps], into [caps']. *)
Fixpoint lang_caps (r : re) (t : string) (caps caps' : captures) : Prop :=
  match r with
  | Chr p => (exists c, t = String c EmptyString /\ p c = true) /\ caps' = caps
  | Lit l => t = l /\ caps' = caps
  | Seq a b =>
      exists t1 t2 caps1,
        t = t1 +:+ t2 /\ lang_caps a t1 caps caps1 /\ lang_caps b t2 caps1 caps'
  | Alt a b => lang_caps a t caps caps' \/ lang_caps b t caps caps'
  | Opt a => (t = EmptyString /\ caps' = caps) \/ lang_caps a t caps caps'
  | Star p => all_chars p t = true /\ caps' = caps
  | Group name a => exists caps1, lang_caps a t caps caps1 /\ caps' = (name, t) :: caps1
  | Dollar => t = EmptyString /\ caps' = caps
  end.

(** The text of a factor: an optional sign and a decimal. *)
Definition signed_decimal (t : string) : Prop :=
  exists sg b, t = sg +:+ b /\ (sg = "" \/ sg = "+" \/ sg = "-") /\ unsigned_decimal b.

(** The factor [parse_unit] gives for the text in front of the unit
    word: 1.0 for no text, and the value of the text as [float] reads
    it. *)
Definition factor_of (ftext : string) : float :=
  if is_empty ftext then one else default one (PyFloat.float_of_str ftext).

(** The text starts with no character a factor is written with. *)
Definition starts_plain (s : string) : Prop :=
  match s with
  | EmptyString => True
  | String c _ => is_numeric c = false
  end.

(** What [fullmatch] hands to the end of a match. *)
Definition at_string_end (s : string) (caps : captures) : option captures :=
  if is_empty s then Some caps else None.

(** The digits and the point of a decimal, [([0-9]*[.])]. *)
Definition point_re : re := Group "2" (Seq (Star is_digit) (Chr (is_char "."))).

(** ** [ingestion/utils/measurements.py], the measurement columns *)

Section Measurements.

(** [MnemonicMatch] of the client library, of which the program reads
    the measurement type only. *)
Variable MeasurementType : Type.
Variable MnemonicMatch : Type.
Variable measurement_type : MnemonicMatch -> MeasurementType.

Record MnemonicMatchGroup : Type := mkMnemonicMatchGroup {
  mnemonic : string;
  matches : list MnemonicMatch
}.

Record DepthMeasurementColumn : Type := mkDepthMeasurementColumn {
  dmc_measurement_type : MeasurementType;
  dmc_unit : string;
  dmc_column_external_id : string
}.

(** [next((x for x in matches), None)] *)
Definition _find_first_match (column : Column) (matches : list MnemonicMatch)
  : option MnemonicMatch :=
  head matches.

(** [wells_client.mnemonics.search], a call to the service, which may
    raise. *)
Variable search : list string -> result (list MnemonicMatchGroup).

Variable find_best_match : Column -> list MnemonicMatch -> option MnemonicMatch.

(** [[x["externalId"] for x in columns]] *)
Definition column_external_ids (columns : list Column) : result (list string) :=
  for_each
    (fun ids x =>
       match col_externalId x with
       | Some extid => Ok (ids ++ [extid])
       | None => Raise (KeyError "externalId")
       end)
    columns [].

(** The body of the loop over [zip(columns, response)]. *)
Definition measurement_column (output : list DepthMeasurementColumn)
    (pair : Column * MnemonicMatchGroup) : result (list DepthMeasurementColumn) :=
  let '(col, matches_group) := pair in
  match find_best_match col (matches matches_group) with
  | None => Ok output
  | Some match_ =>
      match col_metadata col with
      | None => Raise (KeyError "metadata")
      | Some md =>
          let unit := default "" (md !! "unit") in
          Ok (output ++ [mkDepthMeasurementColumn (measurement_type match_) unit
                           (mnemonic matches_group)])
      end
  end.

Definition measurement_columns (columns : list Column)
  : result (list DepthMeasurementColumn) :=
  let* ids := column_external_ids columns in
  let* response := search ids in
  for_each measurement_column (zip columns response) [].

(** The record the loop makes of a column and its group, none when no
    match is selected. *)
Definition selected (pair : Column * MnemonicMatchGroup) : option DepthMeasurementColumn :=
  match_ ← find_best_match pair.1 (matches pair.2);
  Some (mkDepthMeasurementColumn (measurement_type match_)
          (default "" (default ∅ (col_metadata pair.1) !! "unit"))
          (mnemonic pair.2)).

(** A match is selected for a column without [metadata]. *)
Definition lacks_metadata (pair : Column * MnemonicMatchGroup) : bool :=
  match find_best_match pair.1 (matches pair.2), col_metadata pair.1 with
  | Some _, None => true
  | _, _ => false
  end.

End Measurements.

Arguments mkMnemonicMatchGroup {MnemonicMatch} _ _.
Arguments mnemonic {MnemonicMatch} _.
Arguments matches {MnemonicMatch} _.
Arguments mkDepthMeasurementColumn {MeasurementType} _ _ _.
Arguments dmc_measurement_type {MeasurementType} _.
Arguments dmc_unit {MeasurementType} _.
Arguments dmc_column_external_id {MeasurementType} _.
Arguments _find_first_match {MnemonicMatch} _ _.
Arguments measurement_column {MeasurementType MnemonicMatch} _ _ _ _.
Arguments measurement_columns {MeasurementType MnemonicMatch} _ _ _ _.
Arguments selected {MeasurementType MnemonicMatch} _ _ _.
Arguments lacks_metadata {MnemonicMatch} _ _.


(** * Properties *)

(** ** The unit parser on the documented inputs *)

(** The doubles written [0.1], [0.001], [1.0] and [12.5]. *)
Lemma double_0_1 : of_decimal false 1 (-1) = S754_finite false 7205759403792794 (-56).
Proof. vm_compute. reflexivity. Qed.

Lemma double_0_001 : of_decimal false 1 (-3) = S754_finite false 4611686018427388 (-62).
Proof. vm_compute. reflexivity. Qed.

Lemma double_1 : one = S754_finite false 4503599627370496 (-52).
Proof. vm_compute. reflexivity. Qed.

Lemma double_12_5 : of_decimal false 125 (-1) = S754_finite false 7036874417766400 (-49).
Proof. vm_compute. reflexivity. Qed.

(** C1. [parse_unit] gives inch with factor 0.1 for ["0.1 in"], foot with
    factor 1.0 for ["feet"], meter with factor 0.001 for ["mm"], meter
    with a factor equal to 1.0 for ["m rkb"], and [None] for ["banana"];
    the factors are the doubles nearest to the decimals written. *)
Theorem parse_unit_documented_inputs :
  parse_unit "0.1 in" = Ok (Some (mkDistanceUnit inch (Some (of_decimal false 1 (-1)))))
  /\ parse_unit "feet" = Ok (Some (mkDistanceUnit foot (Some one)))
  /\ parse_unit "mm" = Ok (Some (mkDistanceUnit meter (Some (of_decimal false 1 (-3)))))
  /\ parse_unit "m rkb" = Ok (Some (mkDistanceUnit meter (Some one)))
  /\ eqb one (S754_finite false 4503599627370496 (-52)) = true
  /\ parse_unit "banana" = Ok None.
Proof.
  repeat split; vm_compute; reflexivity.
Qed.

(** ** Chunking *)

Section Chunks.
Context {A : Type}.
Variable lst : list A.
Variable n : Z.
Hypothesis n_pos : 1 <= n.

Let len : Z := Z.of_nat (length lst).

Lemma slice_inside (i : Z) :
  0 <= i < len ->
  slice lst i (i + n) = take (Z.to_nat n) (drop (Z.to_nat i) lst).
Proof.
  intros Hi. unfold slice. fold len.
  assert (Hlo : (i <? 0) = false) by lia.
  assert (Hhi : (i + n <? 0) = false) by lia.
  rewrite Hlo, Hhi.
  replace (Z.max 0 (Z.min len i)) with i by lia.
  destruct (Z_le_gt_dec (i + n) len) as [Hle | Hgt].
  - replace (Z.max 0 (Z.min len (i + n))) with (i + n) by lia.
    f_equal. lia.
  - replace (Z.max 0 (Z.min len (i + n))) with len by lia.
    rewrite !take_ge; [reflexivity | |]; rewrite length_drop; subst len; lia.
Qed.

Lemma slice_length (i : Z) :
  0 <= i -> i + n <= len ->
  Z.of_nat (length (slice lst i (i + n))) = n.
Proof.
  intros Hi Hle. rewrite slice_inside by lia.
  rewrite length_take, length_drop. subst len. lia.
Qed.

Lemma slice_length_bounds (i : Z) :
  0 <= i < len ->
  1 <= Z.of_nat (length (slice lst i (i + n))) <= n.
Proof.
  intros Hi. rewrite slice_inside by lia.
  rewrite length_take, length_drop. subst len. lia.
Qed.

Lemma range_from_concat (fuel : nat) (i : Z) :
  0 <= i -> len - i <= Z.of_nat fuel ->
  concat (map (fun j => slice lst j (j + n)) (range_from fuel i len n))
  = drop (Z.to_nat i) lst.
Proof.
  revert i. induction fuel as [| fuel IH]; intros i Hi Hfuel.
  - simpl. rewrite drop_ge; [reflexivity | subst len; lia].
  - simpl. destruct (i <? len) eqn:Hlt.
    + apply Z.ltb_lt in Hlt. simpl.
      rewrite IH by lia. rewrite slice_inside by lia.
      replace (Z.to_nat (i + n)) with (Z.to_nat i + Z.to_nat n)%nat by lia.
      rewrite <- drop_drop. apply take_drop.
    + apply Z.ltb_ge in Hlt. simpl.
      rewrite drop_ge; [reflexivity | subst len; lia].
Qed.

Lemma range_from_nonempty (fuel : nat) (i : Z) :
  range_from fuel i len n <> [] -> i < len.
Proof.
  destruct fuel as [| fuel]; simpl; [congruence |].
  destruct (i <? len) eqn:Hlt; [intros _; lia | congruence].
Qed.

Lemma range_from_sizes (fuel : nat) (i : Z) (k : nat) (c : list A) :
  0 <= i ->
  map (fun j => slice lst j (j + n)) (range_from fuel i len n) !! k = Some c ->
  1 <= Z.of_nat (length c) <= n
  /\ ((S k < length (range_from fuel i len n))%nat -> Z.of_nat (length c) = n).
Proof.
  revert i k. induction fuel as [| fuel IH]; intros i k Hi Hk.
  - simpl in Hk. discriminate.
  - simpl in Hk |- *. destruct (i <? len) eqn:Hlt; [| discriminate].
    apply Z.ltb_lt in Hlt. destruct k as [| k]; simpl in Hk |- *.
    + injection Hk as <-. split; [apply slice_length_bounds; lia |].
      intros Hmore. apply slice_length; [lia |].
      assert (Hne : range_from fuel (i + n) len n <> []).
      { intros E. rewrite E in Hmore. simpl in Hmore. lia. }
      apply range_from_nonempty in Hne. lia.
    + destruct (IH (i + n) k ltac:(lia) Hk) as [Hb Hn]. split; [exact Hb |].
      intros Hmore. apply Hn. lia.
Qed.

Lemma chunks_ok :
  chunks lst n
  = Ok (map (fun j => slice lst j (j + n)) (range_from (length lst) 0 len n)).
Proof.
  unfold chunks, range. fold len.
  assert (H0 : (n =? 0) = false) by lia.
  assert (H1 : (n <? 0) = false) by lia.
  rewrite H0, H1. simpl. rewrite Z.sub_0_r. subst len. rewrite Nat2Z.id.
  reflexivity.
Qed.

Lemma chunks_concat_sizes :
  exists cs : list (list A),
    chunks lst n = Ok cs
    /\ concat cs = lst
    /\ (forall (k : nat) (c : list A),
           cs !! k = Some c ->
           1 <= Z.of_nat (length c) <= n
           /\ ((S k < length cs)%nat -> Z.of_nat (length c) = n)).
Proof.
  eexists. split; [apply chunks_ok |]. split.
  - rewrite range_from_concat by (subst len; lia). reflexivity.
  - intros k c Hk. rewrite length_map.
    apply (range_from_sizes (length lst) 0 k c); [lia | exact Hk].
Qed.

End Chunks.

(** C7. For every list and every chunk size [n >= 1], [chunks lst n]
    yields groups whose concatenation in order is the list; every group
    but the last has exactly [n] elements (and every group has between 1
    and [n]). *)
Theorem chunks_partition {A : Type} (lst : list A) (n : Z) :
  1 <= n ->
  exists cs : list (list A),
    chunks lst n = Ok cs
    /\ concat cs = lst
    /\ (forall (k : nat) (c : list A),
           cs !! k = Some c ->
           1 <= Z.of_nat (length c) <= n
           /\ ((S k < length cs)%nat -> Z.of_nat (length c) = n)).
Proof.
  intros Hn. apply chunks_concat_sizes. exact Hn.
Qed.

Lemma chunks_partition_witness :
  1 <= 3
  /\ exists cs : list (list Z),
      chunks [1; 2; 3; 4; 5; 6; 7] 3 = Ok cs
      /\ concat cs = [1; 2; 3; 4; 5; 6; 7]
      /\ (forall (k : nat) (c : list Z),
             cs !! k = Some c ->
             1 <= Z.of_nat (length c) <= 3
             /\ ((S k < length cs)%nat -> Z.of_nat (length c) = 3)).
Proof.
  split; [lia | apply (chunks_partition [1; 2; 3; 4; 5; 6; 7] 3); lia].
Defined.

(** ** Substitution by a regular expression *)

Lemma append_empty_l (s : string) : "" +:+ s = s.
Proof. reflexivity. Qed.

Lemma append_char_l (c : ascii) (s t : string) : String c s +:+ t = String c (s +:+ t).
Proof. reflexivity. Qed.

Lemma length_append (s t : string) :
  String.length (s +:+ t) = (String.length s + String.length t)%nat.
Proof.
  induction s as [| c s IH]; [reflexivity |].
  rewrite append_char_l. simpl. rewrite IH. reflexivity.
Qed.

Lemma length_drop_while (p : ascii -> bool) (s : string) :
  (String.length (drop_while p s) <= String.length s)%nat.
Proof.
  induction s as [| c s IH]; simpl; [lia |].
  destruct (p c); simpl; lia.
Qed.

Lemma drop_while_head_false (p : ascii -> bool) (c : ascii) (s : string) :
  p c = false -> drop_while p (String c s) = String c s.
Proof. intros H. simpl. rewrite H. reflexivity. Qed.

Lemma drop_while_all (p : ascii -> bool) (s : string) :
  all_chars p s = true -> drop_while p s = EmptyString.
Proof.
  induction s as [| c s IH]; simpl; [reflexivity |].
  intros [Hc Hs]%andb_true_iff. rewrite Hc. auto.
Qed.

Lemma drop_while_empty_all (p : ascii -> bool) (s : string) :
  drop_while p s = EmptyString -> all_chars p s = true.
Proof.
  induction s as [| c s IH]; simpl; [reflexivity |].
  destruct (p c); [auto | discriminate].
Qed.

Lemma length_strip_prefix (l s rest : string) :
  strip_prefix l s = Some rest ->
  String.length s = (String.length l + String.length rest)%nat.
Proof.
  revert s. induction l as [| a l IH]; intros s H; simpl in H.
  - injection H as <-. reflexivity.
  - destruct s as [| c s]; [discriminate |].
    destruct (Ascii.eqb a c); [| discriminate].
    simpl. rewrite (IH _ H). reflexivity.
Qed.

Lemma star_some (p : ascii -> bool) (s : string) :
  star p s (fun x => Some x) = Some (drop_while p s).
Proof.
  induction s as [| c s IH]; simpl; [reflexivity |].
  destruct (p c); [rewrite IH |]; reflexivity.
Qed.

Lemma match_prefix_plus (p : ascii -> bool) (s : string) :
  match_prefix (Plus p) s
  = match s with
    | EmptyString => None
    | String c s' => if p c then Some (drop_while p s') else None
    end.
Proof.
  unfold match_prefix, Plus. simpl. destruct s as [| c s]; [reflexivity |].
  destruct (p c); [apply star_some | reflexivity].
Qed.

Lemma match_prefix_blanks (s : string) :
  match_prefix blanks_re s
  = match s with
    | EmptyString => None
    | String c s' => if is_blank c then Some (drop_while is_blank s') else None
    end.
Proof. apply match_prefix_plus. Qed.

Lemma match_prefix_well (s : string) :
  match_prefix well_re s
  = match strip_prefix "Wellbore" s with
    | Some rest => Some rest
    | None => strip_prefix "Well" s
    end.
Proof.
  unfold match_prefix, well_re. cbn [run].
  destruct (strip_prefix "Wellbore" s); [reflexivity |].
  destruct (strip_prefix "Well" s); reflexivity.
Qed.

Lemma star_at_end (p : ascii -> bool) (s : string) :
  p "010"%char = false ->
  star p s (fun x => if at_end x then Some x else None)
  = if at_end (drop_while p s) then Some (drop_while p s) else None.
Proof.
  intros Hnl. induction s as [| c s IH]; simpl; [reflexivity |].
  destruct (p c) eqn:Hc; [| reflexivity].
  rewrite IH. destruct (at_end (drop_while p s)); [reflexivity |].
  unfold at_end, newline. simpl.
  destruct (Ascii.eqb_spec c "010"%char) as [-> | _]; [congruence | reflexivity].
Qed.

Lemma match_prefix_trailing (s : string) :
  match_prefix trailing_re s
  = match s with
    | EmptyString => None
    | String c s' =>
        if is_dash_or_space c then
          if at_end (drop_while is_dash_or_space s')
          then Some (drop_while is_dash_or_space s') else None
        else None
    end.
Proof.
  unfold match_prefix, trailing_re, Plus. cbn [run].
  destruct s as [| c s]; [reflexivity |].
  destruct (is_dash_or_space c); [| reflexivity].
  apply (star_at_end is_dash_or_space s). reflexivity.
Qed.

(** *** Facts that hold for every pattern *)

Section SubFrom.
Variable r : re.
Variable repl : string.

Lemma sub_from_past_end (k : nat) (s : string) :
  (String.length s <= k)%nat -> sub_from r repl k s = EmptyString.
Proof.
  revert k. induction s as [| c s IH]; intros k Hk; [reflexivity |].
  simpl in Hk. destruct k as [| k]; [lia |]. simpl. apply IH. lia.
Qed.

Lemma length_sub_from (k : nat) (s : string) :
  (String.length repl <= 1)%nat ->
  (String.length (sub_from r repl k s) <= String.length s - k)%nat.
Proof.
  intros Hrepl. revert k. induction s as [| c s IH]; intros k; [simpl; lia |].
  destruct k as [| k]; cbn [sub_from].
  - destruct (match_prefix r (String c s)) as [rest |].
    + destruct (String.length (String c s) - String.length rest)%nat as [| n] eqn:Hn.
      * simpl. specialize (IH 0%nat). lia.
      * rewrite length_append. specialize (IH n). simpl. lia.
    + simpl. specialize (IH 0%nat). lia.
  - simpl. apply IH.
Qed.

End SubFrom.

Lemma all_chars_sub_from_empty (r : re) (q : ascii -> bool) (k : nat) (s : string) :
  all_chars q s = true -> all_chars q (sub_from r "" k s) = true.
Proof.
  revert k. induction s as [| c s IH]; intros k H; [reflexivity |].
  simpl in H. apply andb_true_iff in H as [Hc Hs].
  destruct k as [| k]; cbn [sub_from]; [| auto].
  destruct (match_prefix r (String c s)) as [rest |].
  - destruct (String.length (String c s) - String.length rest)%nat;
      [simpl; rewrite Hc; simpl | rewrite append_empty_l]; auto.
  - simpl. rewrite Hc. simpl. auto.
Qed.

(** *** [re.sub("[\r\n ]+", " ", s)] *)

Lemma is_blank_not_cr_lf (c : ascii) :
  is_blank c = true -> not_cr_lf c = true -> c = " "%char.
Proof.
  unfold is_blank, not_cr_lf, is_char. intros Hb Hn.
  destruct (Ascii.eqb "013" c); [cbn [orb negb] in Hn; discriminate |].
  destruct (Ascii.eqb "010" c); [cbn [orb negb] in Hn; discriminate |].
  cbn [orb] in Hb. apply Ascii.eqb_eq in Hb. congruence.
Qed.

Lemma not_blank_not_cr_lf (c : ascii) : is_blank c = false -> not_cr_lf c = true.
Proof.
  unfold is_blank, not_cr_lf. intros H.
  apply orb_false_iff in H as [H _]. rewrite H. reflexivity.
Qed.

Lemma collapse_blanks_no_cr_lf (k : nat) (s : string) :
  all_chars not_cr_lf (sub_from blanks_re " " k s) = true.
Proof.
  revert k. induction s as [| c s IH]; intros k; [reflexivity |].
  destruct k as [| k]; cbn [sub_from]; [| apply IH].
  rewrite match_prefix_blanks. destruct (is_blank c) eqn:Hc.
  - pose proof (length_drop_while is_blank s) as Hlen.
    destruct (String.length (String c s) - String.length (drop_while is_blank s))%nat
      as [| n] eqn:Hn; [simpl in Hn; lia |].
    rewrite append_char_l, append_empty_l. simpl. apply IH.
  - simpl. rewrite (not_blank_not_cr_lf c Hc). apply IH.
Qed.

Lemma collapse_blanks_fixed (s : string) :
  all_chars not_cr_lf s = true -> blanks_single s = true -> collapse_blanks s = s.
Proof.
  unfold collapse_blanks, sub.
  induction s as [| c s IH]; intros Hn Hs; [reflexivity |].
  simpl in Hn, Hs. apply andb_true_iff in Hn as [Hnc Hn].
  apply andb_true_iff in Hs as [Hsc Hs].
  cbn [sub_from]. rewrite match_prefix_blanks. destruct (is_blank c) eqn:Hc.
  - assert (Hd : drop_while is_blank s = s).
    { destruct s as [| d s]; [reflexivity |]. simpl in Hsc.
      apply negb_true_iff in Hsc. apply drop_while_head_false. exact Hsc. }
    rewrite Hd. replace (String.length (String c s) - String.length s)%nat with 1%nat
      by (simpl; lia).
    rewrite append_char_l, append_empty_l.
    rewrite (is_blank_not_cr_lf c Hc Hnc). f_equal. auto.
  - f_equal. auto.
Qed.

Lemma collapse_blanks_shrinks (s : string) :
  blanks_single s = false ->
  (String.length (collapse_blanks s) < String.length s)%nat.
Proof.
  unfold collapse_blanks, sub.
  induction s as [| c s IH]; intros Hs; [discriminate |].
  simpl in Hs. cbn [sub_from]. rewrite match_prefix_blanks.
  destruct (is_blank c) eqn:Hc.
  - pose proof (length_drop_while is_blank s) as Hlen.
    destruct (String.length (String c s) - String.length (drop_while is_blank s))%nat
      as [| n] eqn:Hn; [simpl in Hn; lia |].
    rewrite length_append.
    pose proof (length_sub_from blanks_re " " n s ltac:(simpl; lia)) as Hle.
    simpl. destruct n as [| n].
    + destruct s as [| d s]; [simpl in Hs; discriminate |].
      destruct (is_blank d) eqn:Hd.
      * simpl in Hn. rewrite Hd in Hn.
        pose proof (length_drop_while is_blank s). lia.
      * simpl in Hs. apply IH in Hs. lia.
    + destruct s as [| d s]; simpl in *; lia.
  - simpl in Hs. apply IH in Hs. simpl. lia.
Qed.

(** *** [re.sub("Wellbore|Well", "", s)] *)

Lemma strip_prefix_append (a b s : string) :
  strip_prefix (a +:+ b) s
  = match strip_prefix a s with
    | Some rest => strip_prefix b rest
    | None => None
    end.
Proof.
  revert s. induction a as [| x a IH]; intros s; [reflexivity |].
  rewrite append_char_l. destruct s as [| c s]; [reflexivity |].
  simpl. destruct (Ascii.eqb x c); [apply IH | reflexivity].
Qed.

Lemma strip_prefix_wellbore_well (s : string) :
  strip_prefix "Well" s = None -> strip_prefix "Wellbore" s = None.
Proof.
  intros H. change "Wellbore" with ("Well" +:+ "bore").
  rewrite strip_prefix_append, H. reflexivity.
Qed.

Lemma remove_well_fixed (s : string) :
  contains "Well" s = false -> remove_well s = s.
Proof.
  unfold remove_well, sub.
  induction s as [| c s IH]; intros H; [reflexivity |].
  cbn [contains] in H. apply orb_false_iff in H as [Hhere Hrest].
  cbn [sub_from]. rewrite match_prefix_well.
  assert (Hw : strip_prefix "Well" (String c s) = None).
  { destruct (strip_prefix "Well" (String c s)) eqn:E; [| reflexivity].
    rewrite bool_decide_eq_false in Hhere. exfalso. apply Hhere. eauto. }
  rewrite (strip_prefix_wellbore_well _ Hw), Hw. f_equal. auto.
Qed.

Lemma remove_well_shrinks (s : string) :
  contains "Well" s = true ->
  (String.length (remove_well s) < String.length s)%nat.
Proof.
  unfold remove_well, sub.
  induction s as [| c s IH]; intros H; [discriminate |].
  cbn [contains] in H. cbn [sub_from]. rewrite match_prefix_well.
  assert (Hcut : forall l rest, l <> "" -> strip_prefix l (String c s) = Some rest ->
            (String.length
               match (String.length (String c s) - String.length rest)%nat with
               | O => String c (sub_from well_re "" 0 s)
               | S n => "" +:+ sub_from well_re "" n s
               end < String.length (String c s))%nat).
  { intros l rest Hl Hrest. apply length_strip_prefix in Hrest.
    destruct l as [| a l]; [congruence |]. simpl in Hrest.
    destruct (String.length (String c s) - String.length rest)%nat as [| n] eqn:Hn;
      [simpl in Hn; lia |].
    pose proof (length_sub_from well_re "" n s ltac:(simpl; lia)) as Hle.
    rewrite append_empty_l. simpl. simpl in Hn. lia. }
  destruct (strip_prefix "Wellbore" (String c s)) as [rest |] eqn:Hwb.
  - apply (Hcut "Wellbore" rest); [discriminate | exact Hwb].
  - destruct (strip_prefix "Well" (String c s)) as [rest |] eqn:Hw.
    + apply (Hcut "Well" rest); [discriminate | exact Hw].
    + assert (Hrest : contains "Well" s = true).
      { apply orb_true_iff in H as [Hh | Hr]; [| exact Hr].
        apply bool_decide_eq_true in Hh. destruct Hh as [x Hx]. discriminate. }
      apply IH in Hrest. simpl. lia.
Qed.

(** *** [re.sub("[- ]+$", "", s)] *)

Lemma at_end_no_newline (s : string) :
  all_chars not_cr_lf s = true -> at_end s = is_empty s.
Proof.
  destruct s as [| c s]; [reflexivity |]. simpl. intros H.
  apply andb_true_iff in H as [Hc _]. unfold at_end, newline. simpl.
  unfold not_cr_lf, is_char in Hc. apply negb_true_iff, orb_false_iff in Hc as [_ Hc].
  rewrite Ascii.eqb_sym, Hc. reflexivity.
Qed.

Lemma all_chars_drop_while (q p : ascii -> bool) (s : string) :
  all_chars q s = true -> all_chars q (drop_while p s) = true.
Proof.
  induction s as [| c s IH]; simpl; [reflexivity |].
  intros H. destruct (p c); [| exact H].
  apply andb_true_iff in H as [_ H]. auto.
Qed.

Lemma is_empty_drop_while (p : ascii -> bool) (s : string) :
  is_empty (drop_while p s) = all_chars p s.
Proof.
  induction s as [| c s IH]; simpl; [reflexivity |].
  destruct (p c); [exact IH | reflexivity].
Qed.

Lemma match_prefix_trailing_no_newline (s : string) :
  all_chars not_cr_lf s = true ->
  match_prefix trailing_re s
  = if negb (is_empty s) && all_chars is_dash_or_space s then Some "" else None.
Proof.
  intros Hn. rewrite match_prefix_trailing. destruct s as [| c s]; [reflexivity |].
  simpl in Hn. apply andb_true_iff in Hn as [_ Hn]. simpl.
  destruct (is_dash_or_space c); [| reflexivity]. simpl.
  rewrite at_end_no_newline by (apply all_chars_drop_while; exact Hn).
  rewrite is_empty_drop_while.
  destruct (all_chars is_dash_or_space s) eqn:Ha; [| reflexivity].
  rewrite (drop_while_all _ _ Ha). reflexivity.
Qed.

Lemma all_chars_ends (s : string) :
  all_chars is_dash_or_space s = true -> s <> "" -> ends_dash_or_space s = true.
Proof.
  induction s as [| c s IH]; [congruence |]. intros H _.
  simpl in H. apply andb_true_iff in H as [Hc Hs]. simpl.
  destruct s as [| d s]; [exact Hc |]. apply IH; [exact Hs | discriminate].
Qed.

Lemma strip_trailing_fixed (s : string) :
  all_chars not_cr_lf s = true -> ends_dash_or_space s = false ->
  strip_trailing s = s.
Proof.
  unfold strip_trailing, sub.
  induction s as [| c s IH]; intros Hn He; [reflexivity |].
  cbn [sub_from]. rewrite match_prefix_trailing_no_newline by exact Hn.
  destruct (all_chars is_dash_or_space (String c s)) eqn:Ha.
  - apply all_chars_ends in Ha; [congruence | discriminate].
  - cbn [is_empty negb andb]. f_equal.
    simpl in Hn. apply andb_true_iff in Hn as [_ Hn].
    destruct s as [| d s]; [reflexivity |]. apply IH; [exact Hn | exact He].
Qed.

Lemma strip_trailing_empty (s : string) :
  all_chars not_cr_lf s = true -> strip_trailing s = "" ->
  all_chars is_dash_or_space s = true.
Proof.
  unfold strip_trailing, sub. intros Hn.
  destruct s as [| c s]; [reflexivity |].
  cbn [sub_from]. rewrite match_prefix_trailing_no_newline by exact Hn.
  destruct (all_chars is_dash_or_space (String c s)); [reflexivity |].
  cbn [is_empty negb andb]. discriminate.
Qed.

Lemma strip_trailing_ends (s : string) :
  all_chars not_cr_lf s = true -> ends_dash_or_space (strip_trailing s) = false.
Proof.
  induction s as [| c s IH]; intros Hn; [reflexivity |].
  pose proof Hn as Hn'. simpl in Hn'. apply andb_true_iff in Hn' as [_ Hs].
  unfold strip_trailing, sub. cbn [sub_from].
  rewrite match_prefix_trailing_no_newline by exact Hn.
  destruct (all_chars is_dash_or_space (String c s)) eqn:Ha.
  - cbn [is_empty negb andb].
    replace (String.length (String c s) - String.length "")%nat
      with (S (String.length s)) by (simpl; lia).
    rewrite append_empty_l, sub_from_past_end by lia. reflexivity.
  - cbn [is_empty negb andb]. fold (sub trailing_re "" s). fold (strip_trailing s).
    simpl. destruct (strip_trailing s) as [| d t] eqn:Ht.
    + apply strip_trailing_empty in Ht; [| exact Hs].
      simpl in Ha. rewrite Ht, andb_true_r in Ha. exact Ha.
    + specialize (IH Hs). exact IH.
Qed.

(** *** The three steps together *)

Lemma clean_name_steps (s : string) :
  clean_name s = strip_trailing (remove_well (collapse_blanks s)).
Proof. reflexivity. Qed.

Lemma clean_name_no_cr_lf (s : string) : all_chars not_cr_lf (clean_name s) = true.
Proof.
  rewrite clean_name_steps. unfold strip_trailing, remove_well, collapse_blanks, sub.
  do 2 apply all_chars_sub_from_empty. apply collapse_blanks_no_cr_lf.
Qed.

Lemma clean_name_ends (s : string) : ends_dash_or_space (clean_name s) = false.
Proof.
  rewrite clean_name_steps. apply strip_trailing_ends.
  unfold remove_well, collapse_blanks, sub.
  apply all_chars_sub_from_empty. apply collapse_blanks_no_cr_lf.
Qed.

Lemma length_clean_name_steps (s : string) :
  (String.length (clean_name s) <= String.length (remove_well (collapse_blanks s))
   /\ String.length (remove_well (collapse_blanks s)) <= String.length (collapse_blanks s)
   /\ String.length (collapse_blanks s) <= String.length s)%nat.
Proof.
  rewrite clean_name_steps. unfold strip_trailing, remove_well, collapse_blanks, sub.
  pose proof (length_sub_from trailing_re "" 0
                (sub_from well_re "" 0 (sub_from blanks_re " " 0 s)) ltac:(simpl; lia)).
  pose proof (length_sub_from well_re "" 0 (sub_from blanks_re " " 0 s) ltac:(simpl; lia)).
  pose proof (length_sub_from blanks_re " " 0 s ltac:(simpl; lia)).
  lia.
Qed.

Lemma is_blank_space (c : ascii) :
  not_cr_lf c = true -> is_blank c = Ascii.eqb " " c.
Proof.
  unfold not_cr_lf, is_blank, is_char. intros H.
  apply negb_true_iff in H. rewrite H. reflexivity.
Qed.

Lemma starts_double_space (c : ascii) (s : string) :
  bool_decide (is_Some (strip_prefix "  " (String c s)))
  = Ascii.eqb " " c && match s with
                       | EmptyString => false
                       | String d _ => Ascii.eqb " " d
                       end.
Proof.
  cbn [strip_prefix].
  destruct (Ascii.eqb " " c); cbn [andb];
    [| apply bool_decide_eq_false_2; intros [x Hx]; discriminate].
  destruct s as [| d s]; cbn [strip_prefix];
    [apply bool_decide_eq_false_2; intros [x Hx]; discriminate |].
  destruct (Ascii.eqb " " d);
    [apply bool_decide_eq_true_2; eauto
    | apply bool_decide_eq_false_2; intros [x Hx]; discriminate].
Qed.

Lemma blanks_single_double_space (s : string) :
  all_chars not_cr_lf s = true ->
  blanks_single s = negb (contains "  " s).
Proof.
  induction s as [| c s IH]; intros Hn; [reflexivity |].
  simpl in Hn. apply andb_true_iff in Hn as [Hc Hs].
  cbn [blanks_single contains].
  rewrite (IH Hs), negb_orb, starts_double_space, (is_blank_space c Hc).
  destruct s as [| d s]; [reflexivity |].
  simpl in Hs. apply andb_true_iff in Hs as [Hd _].
  rewrite (is_blank_space d Hd). reflexivity.
Qed.

Lemma clean_name_fixed_iff (y : string) :
  all_chars not_cr_lf y = true -> ends_dash_or_space y = false ->
  clean_name y = y <-> contains "  " y = false /\ contains "Well" y = false.
Proof.
  intros Hn He. pose proof (length_clean_name_steps y) as (L3 & L2 & L1).
  pose proof (blanks_single_double_space y Hn) as Hbs. split.
  - intros Hfix. rewrite Hfix in L3.
    destruct (blanks_single y) eqn:Hb.
    + split; [destruct (contains "  " y); [discriminate | reflexivity] |].
      rewrite (collapse_blanks_fixed y Hn Hb) in L3.
      destruct (contains "Well" y) eqn:Hw; [| reflexivity].
      apply remove_well_shrinks in Hw. lia.
    + apply collapse_blanks_shrinks in Hb. lia.
  - intros [Hd Hw]. rewrite Hd in Hbs. simpl in Hbs.
    rewrite clean_name_steps, (collapse_blanks_fixed y Hn Hbs), (remove_well_fixed y Hw).
    apply strip_trailing_fixed; assumption.
Qed.

(** C3, as the code has it. Cleaning a cleaned name changes nothing
    exactly when the cleaned name holds neither two spaces in a row nor
    the text [Well]; removing [Well] or [Wellbore] can leave either. *)
Theorem clean_name_idempotent_iff (x : string) :
  clean_name (clean_name x) = clean_name x
  <-> contains "  " (clean_name x) = false /\ contains "Well" (clean_name x) = false.
Proof.
  apply clean_name_fixed_iff; [apply clean_name_no_cr_lf | apply clean_name_ends].
Qed.

Lemma clean_name_idempotent_iff_witness :
  clean_name (clean_name "Wellbore 15/9-F-1 - ") = clean_name "Wellbore 15/9-F-1 - ".
Proof.
  apply (clean_name_idempotent_iff "Wellbore 15/9-F-1 - ").
  split; vm_compute; reflexivity.
Defined.

(** C3 as stated fails: ["a Well b"] is cleaned to ["a  b"], which is
    cleaned to ["a b"]. *)
Lemma clean_name_not_idempotent :
  clean_name "a Well b" = "a  b"
  /\ clean_name (clean_name "a Well b") = "a b"
  /\ clean_name (clean_name "a Well b") <> clean_name "a Well b".
Proof.
  repeat split; try (vm_compute; reflexivity). vm_compute. discriminate.
Qed.

(** ** The matcher only finds what the pattern describes *)

Lemma append_assoc (a b c : string) : (a +:+ b) +:+ c = a +:+ (b +:+ c).
Proof.
  induction a as [| x a IH]; [reflexivity |].
  rewrite !append_char_l, IH. reflexivity.
Qed.

Lemma append_empty_r (a : string) : a +:+ "" = a.
Proof.
  induction a as [| x a IH]; [reflexivity |].
  rewrite append_char_l, IH. reflexivity.
Qed.

Lemma strip_prefix_some (l s rest : string) :
  strip_prefix l s = Some rest -> s = l +:+ rest.
Proof.
  revert s. induction l as [| a l IH]; intros s H; simpl in H.
  - injection H as <-. reflexivity.
  - destruct s as [| c s]; [discriminate |].
    destruct (Ascii.eqb_spec a c) as [<- | _]; [| discriminate].
    rewrite append_char_l, <- (IH _ H). reflexivity.
Qed.

Lemma take_chars_append (t s : string) :
  take_chars (String.length (t +:+ s) - String.length s) (t +:+ s) = t.
Proof.
  rewrite length_append.
  replace (String.length t + String.length s - String.length s)%nat
    with (String.length t) by lia.
  induction t as [| c t IH]; [destruct s; reflexivity |].
  rewrite append_char_l. simpl. rewrite IH. reflexivity.
Qed.

Lemma star_sound {R : Type} (p : ascii -> bool) (s : string)
    (k : string -> option R) (x : R) :
  star p s k = Some x ->
  exists t s', s = t +:+ s' /\ all_chars p t = true /\ k s' = Some x.
Proof.
  induction s as [| c s IH]; simpl; intros H.
  - exists "", "". auto.
  - destruct (p c) eqn:Hc.
    + destruct (star p s k) as [y |] eqn:Hs.
      * injection H as ->. destruct (IH eq_refl) as (t & s' & -> & Ht & Hk).
        exists (String c t), s'. rewrite append_char_l. simpl. rewrite Hc. auto.
      * exists "", (String c s). auto.
    + exists "", (String c s). auto.
Qed.

Theorem run_sound {R : Type} (G : string -> string -> Prop) (r : re) :
  groups_sound G r ->
  forall (s : string) (caps : captures) (k : string -> captures -> option R) (x : R),
    captures_ok G caps ->
    run r s caps k = Some x ->
    exists t s' caps',
      s = t +:+ s' /\ lang r t /\ captures_ok G caps' /\ k s' caps' = Some x.
Proof.
  induction r as [p | l | a IHa b IHb | a IHa b IHb | a IHa | p | name a IHa |];
    intros HG s caps k x Hcaps H; cbn [run] in H; cbn [lang].
  - destruct s as [| c s]; [discriminate |]. destruct (p c) eqn:Hc; [| discriminate].
    exists (String c ""), s, caps. eauto 10.
  - destruct (strip_prefix l s) as [s' |] eqn:Hl; [| discriminate].
    exists l, s', caps. auto using strip_prefix_some.
  - destruct HG as [HGa HGb].
    destruct (IHa HGa _ _ _ _ Hcaps H) as (t1 & s1 & caps1 & -> & L1 & C1 & H1).
    destruct (IHb HGb _ _ _ _ C1 H1) as (t2 & s2 & caps2 & -> & L2 & C2 & H2).
    exists (t1 +:+ t2), s2, caps2. rewrite append_assoc. eauto 10.
  - destruct HG as [HGa HGb]. destruct (run a s caps k) as [y |] eqn:Ha.
    + injection H as ->.
      destruct (IHa HGa _ _ _ _ Hcaps Ha) as (t & s' & caps' & -> & L & C & Hk).
      exists t, s', caps'. auto.
    + destruct (IHb HGb _ _ _ _ Hcaps H) as (t & s' & caps' & -> & L & C & Hk).
      exists t, s', caps'. auto.
  - destruct (run a s caps k) as [y |] eqn:Ha.
    + injection H as ->.
      destruct (IHa HG _ _ _ _ Hcaps Ha) as (t & s' & caps' & -> & L & C & Hk).
      exists t, s', caps'. auto.
    + exists "", s, caps. auto.
  - apply star_sound in H as (t & s' & -> & Ht & Hk). exists t, s', caps. auto.
  - destruct HG as [Hname HGa].
    destruct (IHa HGa _ _ _ _ Hcaps H) as (t & s' & caps' & -> & L & C & Hk).
    rewrite take_chars_append in Hk.
    exists t, s', ((name, t) :: caps'). repeat split; auto.
    intros n v [E | Hin]; [injection E as <- <-; auto | auto].
  - destruct (is_empty s || String.eqb s newline); [| discriminate].
    exists "", s, caps. auto.
Qed.

Lemma group_in (caps : captures) (name v : string) :
  group caps name = Some v -> In (name, v) caps.
Proof.
  induction caps as [| [n w] caps IH]; simpl; [discriminate |].
  destruct (String.eqb_spec n name) as [-> | _].
  - intros H. injection H as ->. left. reflexivity.
  - intros H. right. auto.
Qed.

Lemma fullmatch_sound (G : string -> string -> Prop) (r : re) (s : string)
    (caps : captures) :
  groups_sound G r -> fullmatch r s = Some caps ->
  lang r s /\ captures_ok G caps.
Proof.
  intros HG H. unfold fullmatch in H.
  apply (run_sound G r HG) in H as (t & s' & caps' & -> & L & C & Hk);
    [| intros n v []].
  destruct s' as [| c s']; [| discriminate]. injection Hk as <-.
  rewrite append_empty_r. auto.
Qed.

(** ** [parse_unit] raises nothing

    The text the group [factor] records is a signed decimal, which
    [float] accepts. *)

Ltac by_ascii_cases c :=
  destruct c as [[|] [|] [|] [|] [|] [|] [|] [|]]; vm_compute;
  try discriminate; try reflexivity; intuition (try discriminate; try congruence).

Lemma numeric_to_ascii (c : ascii) : is_numeric c = true -> PyFloat.to_ascii c = c.
Proof. by_ascii_cases c. Qed.

Lemma numeric_not_underscore (c : ascii) : is_numeric c = true -> is_char "_" c = false.
Proof. by_ascii_cases c. Qed.

Lemma numeric_not_space (c : ascii) : is_numeric c = true -> PyFloat.c_isspace c = false.
Proof. by_ascii_cases c. Qed.

Lemma digit_numeric (c : ascii) : is_digit c = true -> is_numeric c = true.
Proof. unfold is_numeric. intros ->. reflexivity. Qed.

Lemma digit_not_dot (c : ascii) : is_digit c = true -> c <> "."%char.
Proof. by_ascii_cases c. Qed.

Lemma digit_not_sign (c : ascii) : is_digit c = true -> c <> "-"%char /\ c <> "+"%char.
Proof. by_ascii_cases c. Qed.

Lemma sign_cases (c : ascii) : is_sign c = true -> c = "+"%char \/ c = "-"%char.
Proof.
  unfold is_sign, is_char. intros H. apply orb_true_iff in H as [H | H];
    apply Ascii.eqb_eq in H; auto.
Qed.

(** The first letter of [inf], [infinity] and [nan] is no digit and no
    point. *)
Lemma numeric_not_word (c : ascii) (s : string) :
  is_numeric c = true ->
  String.eqb (map_string PyFloat.c_tolower (String c s)) "inf"
  || String.eqb (map_string PyFloat.c_tolower (String c s)) "infinity" = false
  /\ String.eqb (map_string PyFloat.c_tolower (String c s)) "nan" = false.
Proof.
  intros H. cbn [map_string String.eqb].
  assert (E : Ascii.eqb (PyFloat.c_tolower c) "i" = false
              /\ Ascii.eqb (PyFloat.c_tolower c) "n" = false).
  { revert H. by_ascii_cases c. }
  destruct E as [-> ->]. auto.
Qed.

Lemma all_chars_append (p : ascii -> bool) (s t : string) :
  all_chars p (s +:+ t) = all_chars p s && all_chars p t.
Proof.
  induction s as [| c s IH]; [reflexivity |].
  rewrite append_char_l. simpl. rewrite IH, andb_assoc. reflexivity.
Qed.

Lemma all_chars_weaken (p q : ascii -> bool) (s : string) :
  (forall c, p c = true -> q c = true) -> all_chars p s = true -> all_chars q s = true.
Proof.
  intros Hpq. induction s as [| c s IH]; simpl; [reflexivity |].
  intros [Hc Hs]%andb_true_iff. rewrite (Hpq c Hc). auto.
Qed.

Lemma map_to_ascii_numeric (s : string) :
  all_chars is_numeric s = true -> map_string PyFloat.to_ascii s = s.
Proof.
  induction s as [| c s IH]; [reflexivity |]. intros H.
  simpl in H. apply andb_true_iff in H as [Hc Hs]. cbn [map_string].
  rewrite (numeric_to_ascii c Hc), (IH Hs). reflexivity.
Qed.

Lemma drop_underscores_numeric (prev : ascii) (s : string) :
  is_char "_" prev = false -> all_chars is_numeric s = true ->
  PyFloat.drop_underscores prev s = Some s.
Proof.
  revert prev. induction s as [| c s IH]; intros prev Hp Hs;
    cbn [PyFloat.drop_underscores].
  - rewrite Hp. reflexivity.
  - simpl in Hs. apply andb_true_iff in Hs as [Hc Hs].
    rewrite (numeric_not_underscore c Hc), Hp. cbn [andb].
    rewrite (IH c (numeric_not_underscore c Hc) Hs). reflexivity.
Qed.

Lemma rstrip_numeric (s : string) :
  all_chars is_numeric s = true -> PyFloat.rstrip s = s.
Proof.
  induction s as [| c s IH]; [reflexivity |]. intros H.
  simpl in H. apply andb_true_iff in H as [Hc Hs]. cbn [PyFloat.rstrip].
  rewrite (IH Hs), (numeric_not_space c Hc), andb_false_r. reflexivity.
Qed.

Lemma strip_numeric (s : string) :
  all_chars is_numeric s = true -> PyFloat.strip s = s.
Proof.
  intros H. unfold PyFloat.strip.
  replace (drop_while PyFloat.c_isspace s) with s; [apply rstrip_numeric; exact H |].
  destruct s as [| c s]; [reflexivity |]. simpl in H. cbn [drop_while].
  apply andb_true_iff in H as [Hc _]. rewrite (numeric_not_space c Hc). reflexivity.
Qed.

Lemma float_of_str_numeric (s : string) :
  all_chars is_numeric s = true ->
  PyFloat.float_of_str s = PyFloat.parse_number s.
Proof.
  intros H. unfold PyFloat.float_of_str.
  rewrite (map_to_ascii_numeric s H).
  rewrite (drop_underscores_numeric "000" s eq_refl H).
  rewrite (strip_numeric s H). reflexivity.
Qed.

Lemma span_all (p : ascii -> bool) (s rest : string) :
  all_chars p s = true ->
  match rest with
  | EmptyString => True
  | String c _ => p c = false
  end ->
  span p (s +:+ rest) = (s, rest).
Proof.
  intros Hs Hrest. induction s as [| c s IH].
  - rewrite append_empty_l. destruct rest as [| d rest]; [reflexivity |].
    simpl. rewrite Hrest. reflexivity.
  - simpl in Hs. apply andb_true_iff in Hs as [Hc Hs].
    rewrite append_char_l. simpl. rewrite Hc, (IH Hs). reflexivity.
Qed.

Lemma unsigned_decimal_numeric (b : string) :
  unsigned_decimal b -> all_chars is_numeric b = true.
Proof.
  intros [(ds & d & ds' & -> & Hds & Hd & Hds') | (d & ds' & -> & Hd & Hds')].
  - rewrite all_chars_append. simpl.
    rewrite (all_chars_weaken _ _ ds digit_numeric Hds).
    rewrite (digit_numeric d Hd), (all_chars_weaken _ _ ds' digit_numeric Hds').
    reflexivity.
  - simpl. rewrite (digit_numeric d Hd), (all_chars_weaken _ _ ds' digit_numeric Hds').
    reflexivity.
Qed.

Lemma unsigned_decimal_head (b : string) :
  unsigned_decimal b ->
  exists c s, b = String c s /\ is_numeric c = true /\ c <> "-"%char /\ c <> "+"%char.
Proof.
  intros [(ds & d & ds' & -> & Hds & Hd & Hds') | (d & ds' & -> & Hd & Hds')].
  - destruct ds as [| c ds].
    + rewrite append_empty_l. exists "."%char, (String d ds').
      repeat split; [discriminate | discriminate].
    + simpl in Hds. apply andb_true_iff in Hds as [Hc _].
      rewrite append_char_l. exists c, (ds +:+ String "." (String d ds')).
      pose proof (digit_not_sign c Hc) as [? ?]. auto using digit_numeric.
  - exists d, ds'. pose proof (digit_not_sign d Hd) as [? ?]. auto using digit_numeric.
Qed.

Lemma split_sign_none (c : ascii) (s : string) :
  c <> "-"%char -> c <> "+"%char -> PyFloat.split_sign (String c s) = (false, String c s).
Proof.
  intros Hm Hp. unfold PyFloat.split_sign.
  destruct c as [[|] [|] [|] [|] [|] [|] [|] [|]]; try reflexivity; congruence.
Qed.

(** After the sign has been split off. *)
Lemma parse_unsigned_decimal (neg : bool) (b : string) :
  unsigned_decimal b ->
  exists f,
    (let l := map_string PyFloat.c_tolower b in
     if String.eqb l "inf" || String.eqb l "infinity" then Some (S754_infinity neg)
     else if String.eqb l "nan" then Some S754_nan
     else
       let '(ip, t1) := span is_digit b in
       let '(fp, t2) :=
         match t1 with
         | String "." t1' => span is_digit t1'
         | _ => (EmptyString, t1)
         end in
       if is_empty ip && is_empty fp then None
       else
         match PyFloat.parse_exponent t2 with
         | None => None
         | Some e =>
             Some (of_decimal neg (PyFloat.digits_value 0 (ip +:+ fp))
                     (e - Z.of_nat (String.length fp)))
         end) = Some f.
Proof.
  intros Hb. cbv zeta.
  assert (Hw : String.eqb (map_string PyFloat.c_tolower b) "inf"
               || String.eqb (map_string PyFloat.c_tolower b) "infinity" = false
               /\ String.eqb (map_string PyFloat.c_tolower b) "nan" = false).
  { destruct (unsigned_decimal_head b Hb) as (c & s & -> & Hc & _).
    apply numeric_not_word. exact Hc. }
  destruct Hw as [-> ->].
  destruct Hb as [(ds & d & ds' & -> & Hds & Hd & Hds') | (d & ds' & -> & Hd & Hds')].
  - rewrite (span_all is_digit ds (String "." (String d ds')) Hds eq_refl).
    pose proof (span_all is_digit (String d ds') "" ) as Hsp.
    rewrite append_empty_r in Hsp. rewrite Hsp; [| simpl; rewrite Hd; exact Hds' | exact I].
    rewrite andb_false_r. cbn [PyFloat.parse_exponent]. eauto.
  - pose proof (span_all is_digit (String d ds') "" ) as Hsp.
    rewrite append_empty_r in Hsp. rewrite Hsp; [| simpl; rewrite Hd; exact Hds' | exact I].
    cbn [is_empty andb PyFloat.parse_exponent]. eauto.
Qed.

Lemma lang_factor_re (t : string) :
  lang factor_re t ->
  exists sg b, t = sg +:+ b /\ (sg = "" \/ sg = "+" \/ sg = "-") /\ unsigned_decimal b.
Proof.
  unfold factor_re, Plus. cbn [lang].
  intros (sg & rest & -> & Hsg & t2 & t3 & -> & H2 & (t4 & ds' & -> & (d & -> & Hd) & Hds')).
  exists sg, (t2 +:+ String d "" +:+ ds'). split; [reflexivity |]. split.
  - destruct Hsg as [-> | (c & -> & Hc)]; [auto |].
    destruct (sign_cases c Hc) as [-> | ->]; auto.
  - destruct H2 as [-> | (ds & dot & -> & Hds & (c & -> & Hc))].
    + right. exists d, ds'. rewrite append_empty_l. auto.
    + left. exists ds, d, ds'. apply Ascii.eqb_eq in Hc. subst c.
      rewrite append_assoc. auto.
Qed.

Lemma float_of_factor (t : string) :
  lang factor_re t -> exists f, PyFloat.float_of_str t = Some f.
Proof.
  intros H. destruct (lang_factor_re t H) as (sg & b & -> & Hsg & Hb).
  pose proof (unsigned_decimal_numeric b Hb) as Hnum.
  destruct (unsigned_decimal_head b Hb) as (c & s & E & Hc & Hm & Hp).
  rewrite float_of_str_numeric.
  - unfold PyFloat.parse_number.
    destruct Hsg as [-> | [-> | ->]].
    + rewrite append_empty_l, E, (split_sign_none c s Hm Hp), <- E.
      apply parse_unsigned_decimal. exact Hb.
    + change (PyFloat.split_sign ("+" +:+ b)) with (false, b).
      apply parse_unsigned_decimal. exact Hb.
    + change (PyFloat.split_sign ("-" +:+ b)) with (true, b).
      apply parse_unsigned_decimal. exact Hb.
  - rewrite all_chars_append, Hnum, andb_true_r.
    destruct Hsg as [-> | [-> | ->]]; reflexivity.
Qed.

Lemma unit_regex_groups :
  groups_sound (fun name v => name = "factor" -> lang factor_re v) _unit_regex.
Proof.
  unfold _unit_regex, factor_re, Plus. cbn [groups_sound].
  repeat split; try (intros; discriminate). intros t Ht _. exact Ht.
Qed.

Lemma parse_unit_total (unit : string) : exists r, parse_unit unit = Ok r.
Proof.
  unfold parse_unit. destruct (String.eqb unit "mm"); [eauto |].
  destruct (String.eqb unit "m rkb"); [eauto |].
  destruct (fullmatch _unit_regex unit) as [caps |] eqn:Hm; [| eauto].
  apply (fullmatch_sound _ _ _ _ unit_regex_groups) in Hm as [_ Hcaps].
  destruct (group caps "factor") as [fm |] eqn:Hf.
  - apply group_in in Hf. specialize (Hcaps _ _ Hf eq_refl).
    destruct (float_of_factor fm Hcaps) as [f ->].
    destruct (is_empty fm); simpl;
      destruct (group caps "unit" ≫= _); eauto.
  - simpl. destruct (group caps "unit" ≫= _); eauto.
Qed.

(** ** The distance resolver and the measured-depth column *)

Lemma parse_unit_factor (unit : string) (pu : DistanceUnit) :
  parse_unit unit = Ok (Some pu) -> exists f, du_factor pu = Some f.
Proof.
  unfold parse_unit. destruct (String.eqb unit "mm").
  { intros H. injection H as <-. simpl. eauto. }
  destruct (String.eqb unit "m rkb").
  { intros H. injection H as <-. simpl. unfold DistanceUnit_default_factor. eauto. }
  destruct (fullmatch _unit_regex unit) as [caps |]; [| discriminate].
  match goal with |- rbind ?e _ = _ -> _ => destruct e as [factor | e'] end;
    [| discriminate].
  simpl. destruct (group caps "unit" ≫= _); [| discriminate].
  intros H. injection H as <-. simpl. eauto.
Qed.

Lemma existsb_eqb_In (a : string) (l : list string) :
  existsb (String.eqb a) l = true <-> In a l.
Proof.
  rewrite existsb_exists. split.
  - intros (x & Hx & E). apply String.eqb_eq in E. subst x. exact Hx.
  - intros H. exists a. split; [exact H | apply String.eqb_refl].
Qed.

Lemma parse_distance_total (value unit : option string) :
  exists r, parse_distance value unit = Ok r.
Proof.
  destruct value as [v |], unit as [u |]; simpl; eauto.
  destruct (PyFloat.float_of_str v) as [fv |]; [| eauto].
  destruct (parse_unit_total u) as [[pu |] ->]; simpl; [| eauto].
  destruct (du_factor pu) as [fac |]; [destruct (neqb fac one) |]; eauto.
Qed.

(** C2. [parse_distance] raises nothing. It returns [None] exactly when
    the value or the unit is [None], or the value is no floating-point
    number for [float], or [parse_unit] returns [None] for the unit, or
    the factor of the parsed unit differs from 1.0. In every other case it
    returns the parsed number, not scaled, with the canonical unit:
    [("12.5", "ft")] gives 12.5 foot and [("12.5", "mm")] gives [None]. *)
Theorem parse_distance_spec (value unit : option string) :
  (exists r, parse_distance value unit = Ok r)
  /\ (parse_distance value unit = Ok None <->
      value = None \/ unit = None
      \/ (exists v, value = Some v /\ PyFloat.float_of_str v = None)
      \/ (exists u, unit = Some u /\ parse_unit u = Ok None)
      \/ (exists u pu f, unit = Some u /\ parse_unit u = Ok (Some pu)
                         /\ du_factor pu = Some f /\ neqb f one = true))
  /\ (forall d, parse_distance value unit = Ok (Some d) <->
      exists v u fv pu f,
        value = Some v /\ unit = Some u
        /\ PyFloat.float_of_str v = Some fv
        /\ parse_unit u = Ok (Some pu)
        /\ du_factor pu = Some f /\ neqb f one = false
        /\ d = mkDistance fv (du_unit pu))
  /\ parse_distance (Some "12.5") (Some "ft")
     = Ok (Some (mkDistance (of_decimal false 125 (-1)) foot))
  /\ parse_distance (Some "12.5") (Some "mm") = Ok None.
Proof.
  split; [| split; [| split; [| split; vm_compute; reflexivity]]].
  - apply parse_distance_total.
  - destruct value as [v |], unit as [u |]; simpl;
      try (split; [intros _; auto | reflexivity]).
    destruct (PyFloat.float_of_str v) as [fv |] eqn:Hv.
    + destruct (parse_unit_total u) as [[pu |] Hu]; rewrite Hu; simpl.
      * destruct (parse_unit_factor u pu Hu) as [f Hf]. rewrite Hf.
        destruct (neqb f one) eqn:Hne.
        -- split; [intros _ | reflexivity].
           do 4 right. exists u, pu, f. auto.
        -- split; [discriminate |].
           intros [H | [H | [(v' & E & H) | [(u' & E & H) | (u' & pu' & f' & E & H & Hf' & Hn)]]]];
             try discriminate; try congruence;
             try (injection E as <-; rewrite Hu in H; injection H as <-; congruence).
      * split; [intros _ | reflexivity]. do 3 right. left. eauto.
    + split; [intros _ | reflexivity]. do 2 right. left. eauto.
  - intros d. destruct value as [v |], unit as [u |]; simpl;
      try (split; [discriminate | intros (v' & u' & fv & pu & f & E1 & E2 & _); discriminate]).
    destruct (PyFloat.float_of_str v) as [fv |] eqn:Hv.
    + destruct (parse_unit_total u) as [[pu |] Hu]; rewrite Hu; simpl.
      * destruct (parse_unit_factor u pu Hu) as [f Hf]. rewrite Hf.
        destruct (neqb f one) eqn:Hne.
        -- split; [discriminate |].
           intros (v' & u' & fv' & pu' & f' & E1 & E2 & _ & H & Hf' & Hn & _).
           injection E2 as <-. rewrite Hu in H. injection H as <-. congruence.
        -- split.
           ++ intros H. injection H as <-. exists v, u, fv, pu, f. auto 10.
           ++ intros (v' & u' & fv' & pu' & f' & E1 & E2 & Hv' & H & _ & _ & ->).
              injection E1 as <-. injection E2 as <-.
              rewrite Hu in H. injection H as <-. congruence.
      * split; [discriminate |].
        intros (v' & u' & fv' & pu' & f' & _ & E2 & _ & H & _).
        injection E2 as <-. congruence.
    + split; [discriminate |].
      intros (v' & u' & fv' & pu' & f' & E1 & _ & H & _).
      injection E1 as <-. congruence.
Qed.

(** C4, as the code has it. [measured_depth] raises nothing. It returns a
    column exactly when the external id of the column, lower-cased, is one
    of [md], [tdep], [depth], [dept] and the unit of its metadata,
    lower-cased (the empty text when there is none), is parsed by
    [parse_unit]; the column returned carries the external id as it is
    written, the unit parsed from the lower-cased text and the type
    ["measured depth"]. In every other case the result is [None]. *)
Theorem measured_depth_spec (column : Column) :
  (exists r, measured_depth column = Ok r)
  /\ (forall d, measured_depth column = Ok (Some d) <->
      In (lower (default "" (col_externalId column))) ["md"; "tdep"; "depth"; "dept"]
      /\ exists pu,
          parse_unit (lower (default "" (default ∅ (col_metadata column) !! "unit")))
          = Ok (Some pu)
          /\ d = mkDepthIndexColumn (default "" (col_externalId column)) pu "measured depth")
  /\ (measured_depth column = Ok None <->
      ~ In (lower (default "" (col_externalId column))) ["md"; "tdep"; "depth"; "dept"]
      \/ parse_unit (lower (default "" (default ∅ (col_metadata column) !! "unit")))
         = Ok None).
Proof.
  unfold measured_depth, _parse.
  set (ext := default "" (col_externalId column)).
  set (unit := lower (default "" (default ∅ (col_metadata column) !! "unit"))).
  pose proof (existsb_eqb_In (lower ext) ["md"; "tdep"; "depth"; "dept"]) as Hin.
  destruct (existsb (String.eqb (lower ext)) ["md"; "tdep"; "depth"; "dept"]).
  - assert (Hi : In (lower ext) ["md"; "tdep"; "depth"; "dept"]) by (apply Hin; reflexivity).
    destruct (parse_unit_total unit) as [[pu |] Hu]; rewrite Hu; simpl.
    + split; [eauto |]. split.
      * intros d. split.
        -- intros H. injection H as <-. eauto.
        -- intros (_ & pu' & H & ->). congruence.
      * split; [discriminate | intros [H | H]; [contradiction | discriminate]].
    + split; [eauto |]. split.
      * intros d. split; [discriminate | intros (_ & pu' & H & _); discriminate].
      * split; auto.
  - assert (Hni : ~ In (lower ext) ["md"; "tdep"; "depth"; "dept"]).
    { intros H. apply Hin in H. discriminate. }
    split; [eauto |]. split.
    + intros d. split; [discriminate | intros (H & _); contradiction].
    + split; auto.
Qed.

(** C4 as stated fails: for the column [MD] with the unit ["FT"] a column
    in foot is returned although [parse_unit "FT"] is [None]. *)
Lemma measured_depth_upper_case_unit :
  measured_depth (mkColumn (Some "MD") None (Some {["unit" := "FT"]}))
  = Ok (Some (mkDepthIndexColumn "MD" (mkDistanceUnit foot (Some one)) "measured depth"))
  /\ parse_unit "FT" = Ok None.
Proof. split; vm_compute; reflexivity. Qed.

(** ** Trajectory rows *)

Lemma cell_some (values : list (option float)) (i : nat) (v : option float) :
  cell values i = Ok v <-> values !! i = Some v.
Proof.
  unfold cell. destruct (values !! i); split; intros H; congruence.
Qed.

Lemma trajectory_row_kept (factor : option float) (md_index inc_index azim_index : nat)
    (values : list (option float)) (row : TrajectoryIngestionRow) :
  trajectory_row factor md_index inc_index azim_index values = Ok (Some row) ->
  row_mapped factor md_index inc_index azim_index values row.
Proof.
  unfold trajectory_row, row_mapped, cell. intros H.
  destruct (values !! md_index) as [[md |] |]; simpl in H; try discriminate.
  - destruct (truthy md); simpl in H.
    + destruct factor as [f |]; simpl in H; [| discriminate].
      destruct (values !! inc_index) as [[inc |] |]; simpl in H; try discriminate.
      * destruct (values !! azim_index) as [[azim |] |]; simpl in H; try discriminate.
        -- destruct (truthy azim); simpl in H; [| discriminate].
           destruct (rem azim f360) as [a |] eqn:Ha; simpl in H; [| discriminate].
           injection H as <-. exists md, inc, azim, f. simpl. auto 10.
      * destruct (values !! azim_index) as [[azim |] |]; simpl in H; try discriminate.
        destruct (truthy azim); simpl in H; [| discriminate].
        destruct (rem azim f360); simpl in H; discriminate.
    + destruct (values !! inc_index) as [[inc |] |]; simpl in H; try discriminate;
        destruct (values !! azim_index) as [[azim |] |]; simpl in H; try discriminate;
        destruct (truthy azim); simpl in H; try discriminate;
        destruct (rem azim f360); simpl in H; discriminate.
  - destruct (values !! inc_index) as [[inc |] |]; simpl in H; try discriminate;
      destruct (values !! azim_index) as [[azim |] |]; simpl in H; try discriminate;
      destruct (truthy azim); simpl in H; try discriminate;
      destruct (rem azim f360); simpl in H; discriminate.
Qed.

Lemma eqb_zero_falsy (z : float) : eqb z zero = true -> truthy z = false.
Proof.
  destruct z as [s | [|] | | [|] m e]; intros H; try reflexivity;
    vm_compute in H; discriminate.
Qed.

Lemma rem_f360 (x : float) : exists a, rem x f360 = Some a.
Proof. unfold rem. change (eqb f360 zero) with false. cbv iota. eauto. Qed.

Lemma trajectory_row_zero (factor : option float) (md_index inc_index azim_index : nat)
    (values : list (option float)) (z f : float) :
  is_Some (values !! md_index) -> is_Some (values !! inc_index) ->
  is_Some (values !! azim_index) -> factor = Some f ->
  eqb z zero = true ->
  values !! md_index = Some (Some z) \/ values !! azim_index = Some (Some z) ->
  trajectory_row factor md_index inc_index azim_index values = Ok None.
Proof.
  intros [md Hmd] [inc Hinc] [azim Hazim] -> Hz%eqb_zero_falsy Hcell.
  unfold trajectory_row, cell. rewrite Hmd, Hinc, Hazim. cbn [rbind].
  destruct Hcell as [E | E].
  - assert (md = Some z) by congruence. subst md. cbn [cell_truthy]. rewrite Hz.
    cbn [rbind]. destruct azim as [a |]; cbn [cell_truthy rbind];
      [| destruct inc; reflexivity].
    destruct (truthy a); cbn [rbind]; [| destruct inc; reflexivity].
    destruct (rem_f360 a) as [a' ->]. cbn [rbind]. destruct inc; reflexivity.
  - assert (azim = Some z) by congruence. subst azim. cbn [cell_truthy]. rewrite Hz.
    destruct md as [m |]; cbn [cell_truthy rbind]; [| destruct inc; reflexivity].
    destruct (truthy m); cbn [rbind]; destruct inc; reflexivity.
Qed.

(** C9. A row whose measured depth or azimuth is there and equal to zero
    is not kept (the row has its three cells and the unit a factor); a
    row with azimuth 0 alone makes the result [None], and a row with
    azimuth 360 is kept with azimuth 0. *)
Theorem zero_cells_are_dropped :
  (forall (factor : option float) (md_index inc_index azim_index : nat)
          (values : list (option float)) (z f : float),
      is_Some (values !! md_index) -> is_Some (values !! inc_index) ->
      is_Some (values !! azim_index) -> factor = Some f ->
      eqb z zero = true ->
      values !! md_index = Some (Some z) \/ values !! azim_index = Some (Some z) ->
      trajectory_row factor md_index inc_index azim_index values = Ok None)
  /\ example_run [(0, [number 100; number 5; number 0])] = Ok None
  /\ example_run [(0, [number 100; number 5; number 360])]
     = Ok (Some (example_trajectory
                   [mkTrajectoryIngestionRow (of_decimal false 100 0)
                      (of_decimal false 5 0) (S754_zero false)])).
Proof.
  split; [exact trajectory_row_zero | split; vm_compute; reflexivity].
Qed.

Lemma zero_cells_are_dropped_witness :
  trajectory_row (Some one) 0 1 2 [number 0; number 5; number 90] = Ok None.
Proof.
  apply (proj1 zero_cells_are_dropped (Some one) 0%nat 1%nat 2%nat
           [number 0; number 5; number 90] (S754_zero false) one);
    vm_compute; eauto.
Defined.

(** ** Uploading in chunks *)

Lemma emitted_wells_of_chunks {date} (cs : list (list (WellIngestion date)))
    (calls : list (call date)) :
  emitted_wells (map wells_ingest cs ++ calls) = concat cs ++ emitted_wells calls.
Proof.
  unfold emitted_wells. induction cs as [| c cs IH]; simpl; [reflexivity |].
  rewrite IH, app_assoc. reflexivity.
Qed.

Lemma emitted_wells_of_wellbores {date} (cs : list (list WellboreIngestion)) :
  emitted_wells (date := date) (map wellbores_ingest cs) = [].
Proof. unfold emitted_wells. induction cs as [| c cs IH]; simpl; auto. Qed.

Lemma emitted_wellbores_of_chunks {date} (cs : list (list WellboreIngestion))
    (calls : list (call date)) :
  emitted_wellbores (map wellbores_ingest cs ++ calls) = concat cs ++ emitted_wellbores calls.
Proof.
  unfold emitted_wellbores. induction cs as [| c cs IH]; simpl; [reflexivity |].
  rewrite IH, app_assoc. reflexivity.
Qed.

Lemma emitted_wellbores_of_wells {date} (cs : list (list (WellIngestion date)))
    (calls : list (call date)) :
  emitted_wellbores (map wells_ingest cs ++ calls) = emitted_wellbores calls.
Proof. unfold emitted_wellbores. induction cs as [| c cs IH]; simpl; auto. Qed.

Lemma upload_emits {date} (wis : list (WellIngestion date)) (wbis : list WellboreIngestion) :
  exists calls,
    upload wis wbis = Ok calls
    /\ emitted_wells calls = wis
    /\ emitted_wellbores calls = wbis.
Proof.
  unfold upload.
  destruct (chunks_concat_sizes wis 1000 ltac:(lia)) as (cs & -> & Hcs & _).
  destruct (chunks_concat_sizes wbis 1000 ltac:(lia)) as (cs' & -> & Hcs' & _).
  simpl. eexists. split; [reflexivity |]. split.
  - rewrite emitted_wells_of_chunks, emitted_wells_of_wellbores, app_nil_r. exact Hcs.
  - rewrite emitted_wellbores_of_wells.
    rewrite <- (app_nil_r (map wellbores_ingest cs')).
    rewrite emitted_wellbores_of_chunks. simpl. rewrite app_nil_r. exact Hcs'.
Qed.

(** ** Wells with the same cleaned name *)

Tactic Notation "bind_case" hyp(H) "as" ident(x) ident(Hx) :=
  match type of H with
  | rbind ?e _ = _ => destruct e as [x | ?] eqn:Hx; cbn [rbind] in H; [| discriminate]
  end.

Section EDMDedup.
Variable datetime : Type.
Variable fromisoformat : string -> option datetime.
Variable by_parent : gmap (option string) (list Asset).
Variable datum_dict : gmap string Asset.

Lemma edm_wellbores_loop (well_asset : Asset) (wellbores : list Asset)
    (acc : list WellboreIngestion) :
  exists wbis,
    for_each (fun acc wellbore =>
                let* wbi := edm_wellbore datum_dict well_asset wellbore in
                Ok (acc ++ [wbi])) wellbores acc = Ok wbis.
Proof.
  revert acc. induction wellbores as [| wb wellbores IH]; intros acc; simpl; [eauto |].
  assert (Hwb : exists wbi, edm_wellbore datum_dict well_asset wb = Ok wbi).
  { unfold edm_wellbore.
    destruct (metadata wb !! "DRILLING_DATUM_ID_EDM") as [key |]; simpl; [| eauto].
    destruct (datum_dict !! (key +:+ "||EDMDF")) as [datum_asset |]; simpl; [| eauto].
    destruct (parse_distance_total (metadata datum_asset !! "DATUM_ELEVATION")
                (metadata datum_asset !! "DATUM_ELEVATION_DSDUNIT")) as [d ->].
    simpl. eauto. }
  destruct Hwb as [wbi ->]. simpl. apply IH.
Qed.

Lemma edm_well_keys (st st' : edm_state datetime) (well_asset : Asset) :
  well_matching_ids _ st = list_to_set (map wi_matching_id (edm_wells _ st)) ->
  edm_well datetime fromisoformat by_parent datum_dict st well_asset = Ok st' ->
  well_matching_ids _ st' = list_to_set (map wi_matching_id (edm_wells _ st'))
  /\ map well_key (edm_wells _ st')
     = map well_key (edm_wells _ st)
       ++ first_occurrences (map wi_matching_id (edm_wells _ st)) [asset_key well_asset].
Proof.
  intros Hset H. unfold edm_well in H.
  bind_case H as lon Hlon. bind_case H as lat Hlat. bind_case H as wd Hwd.
  cbn [wi_matching_id] in H.
  cbn [first_occurrences asset_key].
  destruct (decide (clean_name (name well_asset) ∈ well_matching_ids datetime st)) as [Hin | Hnin].
  - injection H as <-. split; [exact Hset |].
    rewrite Hset, elem_of_list_to_set in Hin.
    destruct (decide (clean_name (name well_asset) ∈ map wi_matching_id (edm_wells datetime st)));
      [| contradiction].
    rewrite app_nil_r. reflexivity.
  - bind_case H as wbis Hwbis. injection H as <-. cbn [edm_wells well_matching_ids].
    rewrite Hset, elem_of_list_to_set in Hnin.
    destruct (decide (clean_name (name well_asset) ∈ map wi_matching_id (edm_wells datetime st)));
      [contradiction |].
    rewrite !map_app. simpl. split; [| reflexivity].
    rewrite list_to_set_app_L, Hset. simpl.
    rewrite (right_id_L ∅ (∪)). apply (comm_L (∪)).
Qed.

Lemma first_occurrences_app (seen : list string) (l1 l2 : list (string * string)) :
  first_occurrences seen (l1 ++ l2)
  = first_occurrences seen l1
    ++ first_occurrences (seen ++ map fst (first_occurrences seen l1)) l2.
Proof.
  revert seen. induction l1 as [| [k v] l1 IH]; intros seen; simpl.
  - rewrite app_nil_r. reflexivity.
  - destruct (decide (k ∈ seen)); [apply IH |].
    simpl. rewrite IH, <- app_assoc. reflexivity.
Qed.

Lemma edm_wells_loop (well_assets : list Asset) (st st' : edm_state datetime) :
  well_matching_ids _ st = list_to_set (map wi_matching_id (edm_wells _ st)) ->
  for_each (edm_well datetime fromisoformat by_parent datum_dict) well_assets st = Ok st' ->
  map well_key (edm_wells _ st')
  = map well_key (edm_wells _ st)
    ++ first_occurrences (map wi_matching_id (edm_wells _ st)) (map asset_key well_assets).
Proof.
  revert st. induction well_assets as [| w well_assets IH]; intros st Hset H; simpl in H.
  - injection H as <-. simpl. rewrite app_nil_r. reflexivity.
  - bind_case H as st1 Hstep.
    destruct (edm_well_keys st st1 w Hset Hstep) as [Hset1 Hkeys].
    rewrite (IH st1 Hset1 H), Hkeys, <- app_assoc. f_equal.
    change (map asset_key (w :: well_assets)) with ([asset_key w] ++ map asset_key well_assets).
    rewrite first_occurrences_app. f_equal. f_equal.
    assert (Hfst : map wi_matching_id (edm_wells datetime st1)
                   = map fst (map well_key (edm_wells datetime st1))).
    { rewrite map_map. reflexivity. }
    rewrite Hfst, Hkeys, map_app, map_map. reflexivity.
Qed.

End EDMDedup.

Lemma first_occurrences_NoDup (seen : list string) (l : list (string * string)) :
  NoDup (map fst (first_occurrences seen l))
  /\ (forall k, k ∈ map fst (first_occurrences seen l) -> k ∉ seen).
Proof.
  revert seen. induction l as [| [k v] l IH]; intros seen; simpl.
  - split; [constructor | intros k Hk; inversion Hk].
  - destruct (decide (k ∈ seen)) as [Hin | Hnin]; [apply IH |].
    destruct (IH (seen ++ [k])) as [Hnd Hfresh]. simpl. split.
    + constructor; [| exact Hnd]. intros Hk. apply (Hfresh k Hk).
      apply elem_of_app. right. apply list_elem_of_singleton. reflexivity.
    + intros k' Hk'. apply elem_of_cons in Hk' as [-> | Hk']; [exact Hnin |].
      intros Hseen. apply (Hfresh k' Hk'). apply elem_of_app. left. exact Hseen.
Qed.

(** The EDM mapper keeps the first well of every cleaned name. *)
Lemma edm_emits_first_occurrences (datetime : Type) (fromisoformat : string -> option datetime)
    (well_assets wellbore_assets datums : list Asset) (calls : list (call datetime)) :
  ingest_wells_and_wellbores_edm datetime fromisoformat well_assets wellbore_assets datums
  = Ok calls ->
  map well_key (emitted_wells calls) = first_occurrences [] (map asset_key well_assets)
  /\ NoDup (map wi_matching_id (emitted_wells calls)).
Proof.
  unfold ingest_wells_and_wellbores_edm, edm_records. intros H.
  bind_case H as st Hloop.
  destruct (upload_emits (edm_wells _ st) (edm_wellbores _ st)) as (calls' & Hup & Hw & _).
  rewrite Hup in H. injection H as <-. rewrite Hw.
  apply edm_wells_loop in Hloop as Hkeys; [| reflexivity].
  simpl in Hkeys. split; [exact Hkeys |].
  replace (map wi_matching_id (edm_wells datetime st))
    with (map fst (map well_key (edm_wells datetime st))) by (rewrite map_map; reflexivity).
  rewrite Hkeys. apply first_occurrences_NoDup.
Qed.

(** C5 fails on the OSDU mapper: two wells whose names are both cleaned to
    [" A"] give two well records with that matching id, where the EDM
    mapper gives one, made from the first. *)
Theorem osdu_wells_not_deduplicated :
  clean_name (name osdu_well_a) = clean_name (name osdu_well_b)
  /\ (exists calls,
         ingest_wells_and_wellbores_osdu unit [osdu_well_a; osdu_well_b] [] "osdu" = Ok calls
         /\ map well_key (emitted_wells calls) = [(" A", "w1"); (" A", "w2")])
  /\ (exists calls,
         ingest_wells_and_wellbores_edm unit (fun _ => None) [edm_well_a; edm_well_b] [] []
         = Ok calls
         /\ map well_key (emitted_wells calls) = [(" A", "w1")]).
Proof.
  split; [vm_compute; reflexivity |].
  split; eexists; split; vm_compute; reflexivity.
Qed.

(** ** The datum variable of the OSDU mapper *)

Section OSDUDatum.
Variable datetime : Type.

Lemma osdu_wellbore_lacking (well_asset wellbore : Asset) (st : osdu_state datetime) :
  lacks_datum wellbore ->
  osdu_wellbore datetime well_asset st wellbore
  = match osdu_datum _ st with
    | Some d =>
        Ok (mkOsduState _ (osdu_wells _ st)
              (osdu_wellbores _ st
               ++ [mkWellboreIngestion (clean_name (name wellbore)) (clean_name (name wellbore))
                     (clean_name (external_id wellbore)) (external_id well_asset)
                     (mkAssetSource (external_id wellbore) "OSDU")
                     (Some (DatumRecord d))])
              (Some d))
    | None => Raise (UnboundLocalError "datum")
    end.
Proof.
  unfold lacks_datum, own_datum, osdu_wellbore. intros H.
  destruct (metadata wellbore !! "VerticalMeasurement_Measured_From") as [elevation |];
    [destruct (metadata wellbore !! "VerticalMeasurementType_Measured_From") as [reference |];
     [discriminate |] |];
    simpl; destruct (osdu_datum datetime st); reflexivity.
Qed.

Lemma osdu_wellbore_own (well_asset wellbore : Asset) (st : osdu_state datetime) (r : result Datum) :
  own_datum wellbore = Some r ->
  osdu_wellbore datetime well_asset st wellbore
  = let* d := r in
    Ok (mkOsduState _ (osdu_wells _ st)
          (osdu_wellbores _ st
           ++ [mkWellboreIngestion (clean_name (name wellbore)) (clean_name (name wellbore))
                 (clean_name (external_id wellbore)) (external_id well_asset)
                 (mkAssetSource (external_id wellbore) "OSDU")
                 (Some (DatumRecord d))])
          (Some d)).
Proof.
  unfold own_datum, osdu_wellbore. intros H.
  destruct (metadata wellbore !! "VerticalMeasurement_Measured_From") as [elevation |];
    [| discriminate].
  destruct (metadata wellbore !! "VerticalMeasurementType_Measured_From") as [reference |];
    [| discriminate].
  injection H as <-. destruct (to_float elevation); reflexivity.
Qed.

Lemma carried_lacking (done : list Asset) (wellbore : Asset) (d : Datum) :
  carried done d -> lacks_datum wellbore -> carried (done ++ [wellbore]) d.
Proof.
  intros (before & wb & after & -> & Hown & Hafter) Hlacks.
  exists before, wb, (after ++ [wellbore]). rewrite <- app_assoc. simpl.
  repeat split; [exact Hown |]. apply Forall_app. split; [exact Hafter |].
  constructor; [exact Hlacks | constructor].
Qed.

Lemma carried_own (done : list Asset) (wellbore : Asset) (d : Datum) :
  own_datum wellbore = Some (Ok d) -> carried (done ++ [wellbore]) d.
Proof. intros H. exists done, wellbore, []. repeat split; [exact H | constructor]. Qed.

Lemma datum_invariant_wellbore (well_asset wellbore : Asset) (done : list Asset)
    (st st' : osdu_state datetime) :
  datum_invariant datetime done st ->
  osdu_wellbore datetime well_asset st wellbore = Ok st' ->
  datum_invariant datetime (done ++ [wellbore]) st'.
Proof.
  intros [Hrecs Hdatum] H. destruct (own_datum wellbore) as [r |] eqn:Hown.
  - rewrite (osdu_wellbore_own _ _ _ r Hown) in H.
    destruct r as [d | e]; [| discriminate]. simpl in H. injection H as <-.
    split; simpl; [| apply carried_own; exact Hown].
    apply (emitted_snoc _ _ _ _ d); [exact Hrecs | apply carried_own; exact Hown | |];
      reflexivity.
  - rewrite (osdu_wellbore_lacking _ _ _ Hown) in H.
    destruct (osdu_datum datetime st) as [d |]; [| discriminate]. injection H as <-.
    split; simpl; [| apply carried_lacking; assumption].
    apply (emitted_snoc _ _ _ _ d);
      [exact Hrecs | apply carried_lacking; assumption | |]; reflexivity.
Qed.

Lemma datum_invariant_wellbores (well_asset : Asset) (wellbores done : list Asset)
    (st st' : osdu_state datetime) :
  datum_invariant datetime done st ->
  for_each (osdu_wellbore datetime well_asset) wellbores st = Ok st' ->
  datum_invariant datetime (done ++ wellbores) st'.
Proof.
  revert done st. induction wellbores as [| wb wellbores IH]; intros done st Hinv H;
    simpl in H.
  - injection H as <-. rewrite app_nil_r. exact Hinv.
  - bind_case H as st1 Hstep.
    replace (done ++ wb :: wellbores) with ((done ++ [wb]) ++ wellbores)
      by (rewrite <- app_assoc; reflexivity).
    apply (IH _ st1); [| exact H].
    apply (datum_invariant_wellbore well_asset wb done st st1); assumption.
Qed.

Lemma datum_invariant_wells (by_parent : gmap (option string) (list Asset))
    (well_assets done : list Asset) (st st' : osdu_state datetime) :
  datum_invariant datetime done st ->
  for_each (osdu_well datetime by_parent) well_assets st = Ok st' ->
  datum_invariant datetime
    (done ++ concat (map (fun w => default [] (by_parent !! Some (external_id w))) well_assets))
    st'.
Proof.
  revert done st. induction well_assets as [| w well_assets IH]; intros done st Hinv H;
    simpl in H.
  - injection H as <-. simpl. rewrite app_nil_r. exact Hinv.
  - bind_case H as st1 Hstep. simpl. rewrite app_assoc.
    apply (IH _ st1); [| exact H].
    unfold osdu_well in Hstep.
    bind_case Hstep as lon Hlon. bind_case Hstep as lat Hlat.
    apply (datum_invariant_wellbores w _ done _ st1) in Hstep; [exact Hstep |].
    exact Hinv.
Qed.

Lemma osdu_records_emitted (well_assets wellbore_assets : list Asset)
    (st : osdu_state datetime) :
  osdu_records datetime well_assets wellbore_assets = Ok st ->
  emitted_for (visited well_assets wellbore_assets) (osdu_wellbores _ st).
Proof.
  unfold osdu_records. intros H.
  apply (datum_invariant_wells _ _ []) in H; [apply H |].
  split; simpl; constructor.
Qed.

Lemma osdu_first_wellbore_lacking (by_parent : gmap (option string) (list Asset))
    (well_assets : list Asset) (st : osdu_state datetime) (wellbore : Asset)
    (rest : list Asset) :
  osdu_datum _ st = None ->
  Forall osdu_position_ok well_assets ->
  concat (map (fun w => default [] (by_parent !! Some (external_id w))) well_assets)
  = wellbore :: rest ->
  lacks_datum wellbore ->
  for_each (osdu_well datetime by_parent) well_assets st = Raise (UnboundLocalError "datum").
Proof.
  revert st. induction well_assets as [| w well_assets IH]; intros st Hnone Hok Hvis Hlacks;
    simpl in Hvis; [discriminate |].
  apply Forall_cons in Hok as [(x & y & Hx & Hy) Hok].
  simpl. unfold osdu_well at 1. rewrite Hx, Hy. cbn [rbind].
  destruct (default [] (by_parent !! Some (external_id w))) as [| wb wbs] eqn:Hw.
  - simpl in Hvis |- *. apply IH; assumption.
  - simpl in Hvis. injection Hvis as -> _. simpl.
    rewrite (osdu_wellbore_lacking w wellbore _ Hlacks). simpl. rewrite Hnone. reflexivity.
Qed.

End OSDUDatum.

(** C10. In the OSDU mapper a wellbore that lacks the elevation or the
    reference key leaves the variable [datum] as it is: its record gets
    the datum bound before it, and the mapper raises
    [UnboundLocalError] when nothing has bound one. Over a whole run that
    succeeds, every wellbore record carries the datum of the last
    wellbore, up to and including its own, that has both keys, never
    [None]; a run in which the first wellbore visited lacks a key (the
    positions of the wells being in order) raises [UnboundLocalError]. *)
Theorem osdu_datum_carried_over (datetime : Type) :
  (forall (well_asset wellbore : Asset) (st : osdu_state datetime),
      lacks_datum wellbore ->
      osdu_wellbore datetime well_asset st wellbore
      = match osdu_datum _ st with
        | Some d =>
            Ok (mkOsduState _ (osdu_wells _ st)
                  (osdu_wellbores _ st
                   ++ [mkWellboreIngestion (clean_name (name wellbore))
                         (clean_name (name wellbore))
                         (clean_name (external_id wellbore)) (external_id well_asset)
                         (mkAssetSource (external_id wellbore) "OSDU")
                         (Some (DatumRecord d))])
                  (Some d))
        | None => Raise (UnboundLocalError "datum")
        end)
  /\ (forall (well_assets wellbore_assets : list Asset) (st : osdu_state datetime),
         osdu_records datetime well_assets wellbore_assets = Ok st ->
         emitted_for (visited well_assets wellbore_assets) (osdu_wellbores _ st))
  /\ (forall (well_assets wellbore_assets : list Asset) (wellbore : Asset) (rest : list Asset),
         Forall osdu_position_ok well_assets ->
         visited well_assets wellbore_assets = wellbore :: rest ->
         lacks_datum wellbore ->
         ingest_wells_and_wellbores_osdu datetime well_assets wellbore_assets "osdu"
         = Raise (UnboundLocalError "datum"))
  /\ (exists calls,
         ingest_wells_and_wellbores_osdu datetime [osdu_well_a]
           [wellbore_with_datum; wellbore_plain] "osdu" = Ok calls
         /\ map wbi_datum (emitted_wellbores calls)
            = [Some (DatumRecord (mkDatum (of_decimal false 25 0) meter "RKB"));
               Some (DatumRecord (mkDatum (of_decimal false 25 0) meter "RKB"))]).
Proof.
  split; [apply osdu_wellbore_lacking |].
  split; [apply osdu_records_emitted |].
  split.
  - intros well_assets wellbore_assets wellbore rest Hok Hvis Hlacks.
    unfold ingest_wells_and_wellbores_osdu, osdu_records.
    rewrite (osdu_first_wellbore_lacking datetime _ well_assets _ wellbore rest);
      [reflexivity | reflexivity | exact Hok | exact Hvis | exact Hlacks].
  - eexists. split; vm_compute; reflexivity.
Qed.

Lemma osdu_datum_carried_over_witness :
  ingest_wells_and_wellbores_osdu unit [osdu_well_a] [wellbore_plain] "osdu"
  = Raise (UnboundLocalError "datum").
Proof.
  apply (proj1 (proj2 (proj2 (osdu_datum_carried_over unit)))
           [osdu_well_a] [wellbore_plain] wellbore_plain []).
  - constructor; [| constructor].
    exists (of_decimal false 15 (-1)), (of_decimal false 60 0).
    split; vm_compute; reflexivity.
  - vm_compute. reflexivity.
  - vm_compute. reflexivity.
Defined.

(** ** Missing metadata keys in the well mappers *)

Lemma water_depth_total (well_asset : Asset) : exists r, _water_depth well_asset = Ok r.
Proof.
  unfold _water_depth.
  destruct (metadata well_asset !! "WELLHEAD_DEPTH" ≫= PyFloat.float_of_str); [| eauto].
  destruct (metadata well_asset !! "WELLHEAD_DEPTH_DSDSUNIT") as [unit |]; [| eauto].
  destruct (parse_unit_total unit) as [[pu |] ->]; simpl; [| eauto].
  destruct (du_factor pu) as [fac |]; [destruct (neqb fac one) |]; eauto.
Qed.

Lemma edm_well_total (datetime : Type) (fromisoformat : string -> option datetime)
    (by_parent : gmap (option string) (list Asset)) (datum_dict : gmap string Asset)
    (st : edm_state datetime) (well_asset : Asset) :
  edm_position_ok well_asset ->
  exists st', edm_well datetime fromisoformat by_parent datum_dict st well_asset = Ok st'.
Proof.
  intros (x & y & Hx & Hy). unfold edm_well. rewrite Hx, Hy. cbn [rbind].
  destruct (water_depth_total well_asset) as [wd ->]. cbn [rbind].
  destruct (decide _); [eauto |].
  destruct (edm_wellbores_loop datum_dict well_asset
              (default [] (by_parent !! Some (external_id well_asset)))
              (edm_wellbores _ st)) as [wbis ->].
  cbn [rbind]. eauto.
Qed.

Lemma edm_records_total (datetime : Type) (fromisoformat : string -> option datetime)
    (well_assets wellbore_assets datums : list Asset) :
  Forall edm_position_ok well_assets ->
  exists calls,
    ingest_wells_and_wellbores_edm datetime fromisoformat well_assets wellbore_assets datums
    = Ok calls.
Proof.
  intros Hok. unfold ingest_wells_and_wellbores_edm, edm_records.
  generalize (mkEdmState datetime [] [] ∅).
  induction Hok as [| w well_assets Hw Hok IH]; intros st; simpl.
  - destruct (upload_emits (edm_wells _ st) (edm_wellbores _ st)) as (calls & -> & _). eauto.
  - destruct (edm_well_total datetime fromisoformat
                (wellbores_by_parent wellbore_assets) (datum_dict_of datums) st w Hw)
      as [st' ->].
    cbn [rbind]. apply IH.
Qed.

(** C8 holds for the longitude and the latitude and, in the EDM mapper,
    for every other key; it fails in the OSDU mapper, where a wellbore
    without the datum keys makes the run raise [UnboundLocalError] when
    no earlier wellbore had them. *)
Theorem osdu_missing_datum_key_is_fatal :
  (forall (datetime : Type) (by_parent : gmap (option string) (list Asset))
          (st : osdu_state datetime) (well_asset : Asset),
      metadata well_asset !! "Wgs84SpatialLocationX" = None ->
      osdu_well datetime by_parent st well_asset = Raise (KeyError "Wgs84SpatialLocationX"))
  /\ (forall (datetime : Type) (by_parent : gmap (option string) (list Asset))
             (st : osdu_state datetime) (well_asset : Asset) (x : float),
         (let* v := getitem (metadata well_asset) "Wgs84SpatialLocationX" in to_float v) = Ok x ->
         metadata well_asset !! "Wgs84SpatialLocationY" = None ->
         osdu_well datetime by_parent st well_asset
         = Raise (KeyError "Wgs84SpatialLocationY"))
  /\ (forall (datetime : Type) (fromisoformat : string -> option datetime)
             (by_parent : gmap (option string) (list Asset)) (datum_dict : gmap string Asset)
             (st : edm_state datetime) (well_asset : Asset),
         metadata well_asset !! "GEO_LONGITUDE" = None ->
         edm_well datetime fromisoformat by_parent datum_dict st well_asset
         = Raise (KeyError "GEO_LONGITUDE"))
  /\ (forall (datetime : Type) (fromisoformat : string -> option datetime)
             (by_parent : gmap (option string) (list Asset)) (datum_dict : gmap string Asset)
             (st : edm_state datetime) (well_asset : Asset) (x : float),
         (let* v := getitem (metadata well_asset) "GEO_LONGITUDE" in to_float v) = Ok x ->
         metadata well_asset !! "GEO_LATITUDE" = None ->
         edm_well datetime fromisoformat by_parent datum_dict st well_asset
         = Raise (KeyError "GEO_LATITUDE"))
  /\ (forall (datetime : Type) (fromisoformat : string -> option datetime)
             (well_assets wellbore_assets datums : list Asset),
         Forall edm_position_ok well_assets ->
         exists calls,
           ingest_wells_and_wellbores_edm datetime fromisoformat
             well_assets wellbore_assets datums = Ok calls)
  /\ ingest_wells_and_wellbores_osdu unit [osdu_well_a] [wellbore_plain] "osdu"
     = Raise (UnboundLocalError "datum")
  /\ (exists calls,
         ingest_wells_and_wellbores_edm unit (fun _ => None) [edm_well_a] [wellbore_plain] []
         = Ok calls
         /\ map wbi_datum (emitted_wellbores calls) = [None]).
Proof.
  split; [| split; [| split; [| split; [| split; [| split]]]]].
  - intros datetime by_parent st well_asset H. unfold osdu_well, getitem. rewrite H.
    reflexivity.
  - intros datetime by_parent st well_asset x Hx H. unfold osdu_well. rewrite Hx.
    unfold getitem. rewrite H. reflexivity.
  - intros datetime fromisoformat by_parent datum_dict st well_asset H.
    unfold edm_well, getitem. rewrite H. reflexivity.
  - intros datetime fromisoformat by_parent datum_dict st well_asset x Hx H.
    unfold edm_well. rewrite Hx. unfold getitem. rewrite H. reflexivity.
  - apply edm_records_total.
  - vm_compute. reflexivity.
  - eexists. split; vm_compute; reflexivity.
Qed.

(** * Further properties of the code *)

(** ** The unit parser, the name cleaner and chunking at their edges *)

(** X1. [parse_unit] raises nothing, whatever the text: the text the
    pattern records as factor is always one [float] accepts. *)
Theorem parse_unit_never_raises (unit : string) :
  exists r : option DistanceUnit, parse_unit unit = Ok r.
Proof. apply parse_unit_total. Qed.

(** X2. A cleaned name holds no carriage return and no line feed, does
    not end with a hyphen or a space, and is not longer than the name. *)
Theorem clean_name_shape (s : string) :
  all_chars not_cr_lf (clean_name s) = true
  /\ ends_dash_or_space (clean_name s) = false
  /\ (String.length (clean_name s) <= String.length s)%nat.
Proof.
  split; [apply clean_name_no_cr_lf |]. split; [apply clean_name_ends |].
  pose proof (length_clean_name_steps s). lia.
Qed.

Lemma length_range_from (fuel : nat) (i stop step : Z) :
  1 <= step -> 0 <= i -> stop - i <= Z.of_nat fuel ->
  Z.of_nat (length (range_from fuel i stop step)) = Z.max 0 ((stop - i + step - 1) / step).
Proof.
  intros Hstep. revert i. induction fuel as [| fuel IH]; intros i Hi Hfuel; simpl.
  - assert ((stop - i + step - 1) / step < 1) by (apply Z.div_lt_upper_bound; lia).
    lia.
  - destruct (i <? stop) eqn:Hlt.
    + apply Z.ltb_lt in Hlt. simpl length. rewrite Nat2Z.inj_succ, IH by lia.
      replace (stop - i + step - 1) with (1 * step + (stop - (i + step) + step - 1)) by lia.
      rewrite Z.div_add_l by lia.
      assert (0 <= (stop - (i + step) + step - 1) / step) by (apply Z.div_pos; lia).
      lia.
    + apply Z.ltb_ge in Hlt. simpl.
      assert ((stop - i + step - 1) / step < 1) by (apply Z.div_lt_upper_bound; lia).
      lia.
Qed.

(** X3. [chunks] with size 0 raises [ValueError]; with a negative size it
    yields nothing at all, whatever the list; with a size [n >= 1] it
    yields the number of groups that [len(lst) / n] rounds up to, so none
    for the empty list. *)
Theorem chunks_edges {A : Type} (lst : list A) :
  chunks lst 0 = Raise ValueError
  /\ (forall n, n < 0 -> chunks lst n = Ok [])
  /\ (forall n, 1 <= n ->
        exists cs, chunks lst n = Ok cs
                   /\ Z.of_nat (length cs) = (Z.of_nat (length lst) + n - 1) / n).
Proof.
  split; [reflexivity |]. split.
  - intros n Hn. unfold chunks, range.
    assert (H0 : (n =? 0) = false) by lia. assert (H1 : (n <? 0) = true) by lia.
    rewrite H0, H1.
    assert (H2 : (Z.of_nat (length lst) <? 0) = false) by (apply Z.ltb_ge; lia).
    rewrite H2. reflexivity.
  - intros n Hn. rewrite (chunks_ok lst n Hn). eexists. split; [reflexivity |].
    rewrite length_map, length_range_from by lia.
    rewrite Z.sub_0_r. apply Z.max_r. apply Z.div_pos; lia.
Qed.

(** X4. [_water_depth] of the EDM mapper is [parse_distance] on the two
    metadata entries it reads: the code written out twice does the same,
    exceptions included. *)
Theorem water_depth_is_parse_distance (well_asset : Asset) :
  _water_depth well_asset
  = parse_distance (metadata well_asset !! "WELLHEAD_DEPTH")
      (metadata well_asset !! "WELLHEAD_DEPTH_DSDSUNIT").
Proof.
  unfold _water_depth, parse_distance.
  destruct (metadata well_asset !! "WELLHEAD_DEPTH") as [v |];
    destruct (metadata well_asset !! "WELLHEAD_DEPTH_DSDSUNIT") as [u |]; simpl;
    try reflexivity; destruct (PyFloat.float_of_str v); reflexivity.
Qed.

(** ** The trajectory mapper *)

Lemma index_of_spec (extid : string) (columns : list (option string)) (k i : nat) :
  index_of extid columns k = Some i
  <-> (k <= i)%nat
      /\ columns !! (i - k)%nat = Some (Some extid)
      /\ (forall j, (j < i - k)%nat -> columns !! j <> Some (Some extid)).
Proof.
  revert k. induction columns as [| col columns IH]; intros k; simpl.
  - split; [discriminate | intros (_ & H & _); discriminate].
  - destruct (decide (col = Some extid)) as [-> | Hne].
    + split.
      * intros H. injection H as <-. rewrite Nat.sub_diag. simpl.
        repeat split; [lia | intros j Hj; lia].
      * intros (Hk & Hi & Hfirst). destruct (i - k)%nat as [| m] eqn:Hm.
        -- f_equal. lia.
        -- exfalso. apply (Hfirst 0%nat); [lia | reflexivity].
    + rewrite IH. split.
      * intros (Hk & Hi & Hfirst). split; [lia |].
        replace (i - k)%nat with (S (i - S k)) by lia. simpl. split; [exact Hi |].
        intros [| j] Hj; simpl; [congruence | apply Hfirst; lia].
      * intros (Hk & Hi & Hfirst). destruct (i - k)%nat as [| m] eqn:Hm.
        -- simpl in Hi. congruence.
        -- simpl in Hi. replace (i - S k)%nat with m by lia.
           split; [lia |]. split; [exact Hi |].
           intros j Hj. apply (Hfirst (S j)). lia.
Qed.

Lemma index_of_none (extid : string) (columns : list (option string)) (k : nat) :
  index_of extid columns k = None <-> (forall j, columns !! j <> Some (Some extid)).
Proof.
  revert k. induction columns as [| col columns IH]; intros k; simpl.
  - split; [intros _ j; rewrite lookup_nil; discriminate | reflexivity].
  - destruct (decide (col = Some extid)) as [-> | Hne].
    + split; [discriminate | intros H; exfalso; apply (H 0%nat); reflexivity].
    + rewrite IH. split.
      * intros H [| j]; simpl; [congruence | apply H].
      * intros H j. apply (H (S j)).
Qed.

(** X5. [find_index] returns the position of the first column with the
    external id asked for, also when several columns carry it, and raises
    exactly when no column does. *)
Theorem find_index_first (sequence : Sequence) (extid : string) :
  (forall i, find_index sequence extid = Ok i
             <-> seq_columns sequence !! i = Some (Some extid)
                 /\ (forall j, (j < i)%nat -> seq_columns sequence !! j <> Some (Some extid)))
  /\ (find_index sequence extid = Raise (LookupException extid)
      <-> (forall j, seq_columns sequence !! j <> Some (Some extid))).
Proof.
  unfold find_index. split.
  - intros i. pose proof (index_of_spec extid (seq_columns sequence) 0 i) as H.
    rewrite Nat.sub_0_r in H.
    destruct (index_of extid (seq_columns sequence) 0) as [i' |].
    + split.
      * intros Hi. injection Hi as ->. destruct (proj1 H eq_refl) as (_ & H1 & H2). auto.
      * intros [H1 H2]. f_equal.
        assert (Some i' = Some i) as Heq by (apply H; repeat split; [lia | exact H1 | exact H2]).
        congruence.
    + split; [discriminate |]. intros [H1 H2].
      assert (@None nat = Some i) as Heq
        by (apply H; repeat split; [lia | exact H1 | exact H2]).
      discriminate.
  - pose proof (index_of_none extid (seq_columns sequence) 0) as H.
    destruct (index_of extid (seq_columns sequence) 0) as [i' |].
    + split; [discriminate |]. intros Hall. apply H in Hall. discriminate.
    + split; [intros _; apply H; reflexivity | reflexivity].
Qed.

Lemma trajectory_row_kept_iff (factor : option float) (md_index inc_index azim_index : nat)
    (values : list (option float)) (row : TrajectoryIngestionRow) :
  trajectory_row factor md_index inc_index azim_index values = Ok (Some row)
  <-> exists md inc azim f r,
        values !! md_index = Some (Some md) /\ truthy md = true
        /\ values !! inc_index = Some (Some inc)
        /\ values !! azim_index = Some (Some azim) /\ truthy azim = true
        /\ factor = Some f
        /\ rem azim f360 = Some r
        /\ row = mkTrajectoryIngestionRow (mul md f) inc r.
Proof.
  unfold trajectory_row, cell. split.
  - intros H.
    destruct (values !! md_index) as [[md |] |]; cbn [rbind cell_truthy] in H;
      try discriminate.
    + destruct (truthy md) eqn:Hmd; cbn [rbind] in H.
      * destruct factor as [f |]; cbn [rbind] in H; [| discriminate].
        destruct (values !! inc_index) as [[inc |] |]; cbn [rbind] in H; try discriminate;
          destruct (values !! azim_index) as [[azim |] |];
          cbn [rbind cell_truthy] in H; try discriminate;
          destruct (truthy azim) eqn:Hazim; cbn [rbind] in H; try discriminate;
          destruct (rem azim f360) as [r |] eqn:Hr; cbn [rbind] in H; try discriminate.
        injection H as <-. exists md, inc, azim, f, r. auto 10.
      * destruct (values !! inc_index) as [[inc |] |]; cbn [rbind] in H; try discriminate;
          destruct (values !! azim_index) as [[azim |] |];
          cbn [rbind cell_truthy] in H; try discriminate;
          destruct (truthy azim); cbn [rbind] in H; try discriminate;
          destruct (rem azim f360); cbn [rbind] in H; discriminate.
    + destruct (values !! inc_index) as [[inc |] |]; cbn [rbind] in H; try discriminate;
        destruct (values !! azim_index) as [[azim |] |];
        cbn [rbind cell_truthy] in H; try discriminate;
        destruct (truthy azim); cbn [rbind] in H; try discriminate;
        destruct (rem azim f360); cbn [rbind] in H; discriminate.
  - intros (md & inc & azim & f & r & -> & Hmd & -> & -> & Hazim & -> & Hr & ->).
    cbn [rbind cell_truthy]. rewrite Hmd, Hazim. cbn [rbind]. rewrite Hr. reflexivity.
Qed.

(** X6. A row is kept exactly when its measured depth and its azimuth are
    numbers other than zero, its inclination is a number, zero included,
    and the unit has a factor; the row kept holds the depth times the
    factor, the inclination as it is and the azimuth modulo 360. *)
Theorem trajectory_row_kept_exactly (factor : option float)
    (md_index inc_index azim_index : nat)
    (values : list (option float)) (row : TrajectoryIngestionRow) :
  trajectory_row factor md_index inc_index azim_index values = Ok (Some row)
  <-> exists md inc azim f r,
        values !! md_index = Some (Some md) /\ truthy md = true
        /\ values !! inc_index = Some (Some inc)
        /\ values !! azim_index = Some (Some azim) /\ truthy azim = true
        /\ factor = Some f
        /\ rem azim f360 = Some r
        /\ row = mkTrajectoryIngestionRow (mul md f) inc r.
Proof. apply trajectory_row_kept_iff. Qed.

(** X7. A row whose azimuth is not a number or is infinite is kept, and
    its azimuth becomes not-a-number. *)
Theorem trajectory_row_nan_azimuth (f md inc azim : float)
    (md_index inc_index azim_index : nat) (values : list (option float)) :
  values !! md_index = Some (Some md) -> truthy md = true ->
  values !! inc_index = Some (Some inc) ->
  values !! azim_index = Some (Some azim) ->
  azim = S754_nan \/ (exists s, azim = S754_infinity s) ->
  trajectory_row (Some f) md_index inc_index azim_index values
  = Ok (Some (mkTrajectoryIngestionRow (mul md f) inc S754_nan)).
Proof.
  intros Hmd Htr Hinc Hazim Hnan. apply trajectory_row_kept_iff.
  exists md, inc, azim, f, S754_nan.
  repeat split; try assumption; try reflexivity;
    destruct Hnan as [-> | [s ->]]; reflexivity.
Qed.

Lemma trajectory_row_nan_azimuth_witness :
  trajectory_row (Some one) 0 1 2 [number 100; number 5; Some S754_nan]
  = Ok (Some (mkTrajectoryIngestionRow (mul (of_decimal false 100 0) one)
                (of_decimal false 5 0) S754_nan)).
Proof.
  apply (trajectory_row_nan_azimuth one (of_decimal false 100 0) (of_decimal false 5 0)
           S754_nan 0 1 2); try reflexivity.
  left. reflexivity.
Defined.

(** ** Grouping the wellbores and looking up datums *)

Lemma wellbores_by_parent_fold (wellbore_assets : list Asset)
    (d : gmap (option string) (list Asset)) (key : option string) :
  default [] (fold_left
                (fun d wb =>
                   <[parent_external_id wb := default [] (d !! parent_external_id wb) ++ [wb]]> d)
                wellbore_assets d !! key)
  = default [] (d !! key) ++ filter (fun wb => parent_external_id wb = key) wellbore_assets.
Proof.
  revert d. induction wellbore_assets as [| wb wbs IH]; intros d; simpl.
  - rewrite app_nil_r. reflexivity.
  - rewrite IH, filter_cons. destruct (decide (parent_external_id wb = key)) as [<- | Hne].
    + rewrite lookup_insert_eq. simpl. rewrite <- app_assoc. reflexivity.
    + rewrite lookup_insert_ne by exact Hne. reflexivity.
Qed.

Lemma wellbores_by_parent_filter (wellbore_assets : list Asset) (key : option string) :
  default [] (wellbores_by_parent wellbore_assets !! key)
  = filter (fun wb => parent_external_id wb = key) wellbore_assets.
Proof.
  unfold wellbores_by_parent. rewrite wellbores_by_parent_fold, lookup_empty. reflexivity.
Qed.

(** X8. The dictionary of wellbores by parent gives, for every key, the
    wellbores with that parent in the order of the input, each once, and
    the empty list for a key no wellbore has. *)
Theorem wellbores_by_parent_lookup (wellbore_assets : list Asset) (key : option string) :
  default [] (wellbores_by_parent wellbore_assets !! key)
  = filter (fun wb => parent_external_id wb = key) wellbore_assets.
Proof. apply wellbores_by_parent_filter. Qed.

Lemma datum_dict_fold (datums : list Asset) (d : gmap string Asset) (key : string) :
  fold_left (fun d x => <[external_id x := x]> d) datums d !! key
  = match last (filter (fun x => external_id x = key) datums) with
    | Some x => Some x
    | None => d !! key
    end.
Proof.
  revert d. induction datums as [| x datums IH]; intros d; simpl; [reflexivity |].
  rewrite IH, filter_cons. destruct (decide (external_id x = key)) as [<- | Hne].
  - rewrite last_cons. destruct (last _); [reflexivity |]. apply lookup_insert_eq.
  - destruct (last _); [reflexivity |]. apply lookup_insert_ne. exact Hne.
Qed.

(** X9. The dictionary of datums holds, under an external id, the last
    datum asset of the input with that id: a later asset replaces an
    earlier one. *)
Theorem datum_dict_last_wins (datums : list Asset) (key : string) :
  datum_dict_of datums !! key = last (filter (fun x => external_id x = key) datums).
Proof.
  unfold datum_dict_of. rewrite datum_dict_fold, lookup_empty.
  destruct (last _); reflexivity.
Qed.

(** ** The OSDU mapper over a whole run *)

Lemma visited_wellbores_of (well_assets wellbore_assets : list Asset) :
  visited well_assets wellbore_assets
  = concat (map (wellbores_of wellbore_assets) well_assets).
Proof.
  unfold visited, wellbores_of. f_equal. apply map_ext. intros w.
  apply wellbores_by_parent_filter.
Qed.

Lemma emitted_for_ids (done : list Asset) (recs : list WellboreIngestion) :
  emitted_for done recs ->
  map (fun r => asset_external_id (wbi_source r)) recs = map external_id done.
Proof.
  induction 1 as [| done recs wb rec d _ IH _ _ Hid]; [reflexivity |].
  rewrite !map_app, IH. simpl. rewrite Hid. reflexivity.
Qed.

(** X10. A run of the OSDU mapper that succeeds uploads one wellbore
    record for every wellbore whose parent is an input well, well by well
    in input order: a wellbore with another parent, or with none, is left
    out, and the wellbores of a well listed twice are uploaded twice. *)
Theorem osdu_wellbores_by_well (datetime : Type) (well_assets wellbore_assets : list Asset)
    (source : string) (calls : list (call datetime)) :
  ingest_wells_and_wellbores_osdu datetime well_assets wellbore_assets source = Ok calls ->
  map (fun r => asset_external_id (wbi_source r)) (emitted_wellbores calls)
  = map external_id (concat (map (wellbores_of wellbore_assets) well_assets)).
Proof.
  unfold ingest_wells_and_wellbores_osdu. intros H. bind_case H as st Hrec.
  destruct (upload_emits (osdu_wells _ st) (osdu_wellbores _ st)) as (calls' & Hup & _ & Hwb).
  rewrite Hup in H. injection H as <-. rewrite Hwb, <- visited_wellbores_of.
  apply emitted_for_ids. apply osdu_records_emitted. exact Hrec.
Qed.

Lemma osdu_wellbores_by_well_witness :
  map (fun r => asset_external_id (wbi_source r))
    (emitted_wellbores
       [wells_ingest (date := unit)
          [mkWellIngestion " A" (Some " A") " A" (mkAssetSource "w1" "OSDU")
             (mkWellhead (of_decimal false 15 (-1)) (of_decimal false 60 0) "EPSG:4326")
             None None None];
        wellbores_ingest
          [mkWellboreIngestion " A2" " A2" "b2" "w1" (mkAssetSource "b2" "OSDU")
             (Some (DatumRecord (mkDatum (of_decimal false 25 0) meter "RKB")))]])
  = map external_id
      (concat (map (wellbores_of [wellbore_with_datum;
                                  mkAsset "b9" (Some "w9") "Wellbore Z" ∅])
                 [osdu_well_a])).
Proof.
  apply (osdu_wellbores_by_well unit [osdu_well_a]
           [wellbore_with_datum; mkAsset "b9" (Some "w9") "Wellbore Z" ∅] "osdu").
  vm_compute. reflexivity.
Defined.

Section OSDUWells.
Variable datetime : Type.

Lemma osdu_wellbores_keep_wells (well_asset : Asset) (wellbores : list Asset)
    (st st' : osdu_state datetime) :
  for_each (osdu_wellbore datetime well_asset) wellbores st = Ok st' ->
  osdu_wells _ st' = osdu_wells _ st.
Proof.
  revert st. induction wellbores as [| wb wellbores IH]; intros st H; simpl in H.
  - injection H as <-. reflexivity.
  - bind_case H as st1 Hstep. rewrite (IH st1 H).
    unfold osdu_wellbore in Hstep.
    bind_case Hstep as dv Hdv. bind_case Hstep as d Hd. injection Hstep as <-. reflexivity.
Qed.

Lemma osdu_wells_loop (by_parent : gmap (option string) (list Asset))
    (well_assets : list Asset) (st st' : osdu_state datetime) :
  for_each (osdu_well datetime by_parent) well_assets st = Ok st' ->
  exists new,
    osdu_wells _ st' = osdu_wells _ st ++ new
    /\ map well_key new = map asset_key well_assets
    /\ Forall (osdu_well_shape datetime) new.
Proof.
  revert st. induction well_assets as [| w well_assets IH]; intros st H; simpl in H.
  - injection H as <-. exists []. rewrite app_nil_r. repeat split; constructor.
  - bind_case H as st1 Hstep. destruct (IH st1 H) as (new & Hnew & Hkeys & Hshape).
    unfold osdu_well in Hstep.
    bind_case Hstep as lon Hlon. bind_case Hstep as lat Hlat.
    apply osdu_wellbores_keep_wells in Hstep. simpl in Hstep.
    eexists (_ :: new). rewrite Hnew, Hstep, <- app_assoc. simpl.
    split; [reflexivity |]. split; [rewrite Hkeys; reflexivity |].
    constructor; [| exact Hshape]. repeat split.
Qed.

End OSDUWells.

(** X11. A run of the OSDU mapper that succeeds uploads one well record
    for every input well, in input order and whatever the names; every
    record has its cleaned name as description and as matching id, and no
    water depth and no spud date. *)
Theorem osdu_one_well_record_each (datetime : Type)
    (well_assets wellbore_assets : list Asset) (source : string)
    (calls : list (call datetime)) :
  ingest_wells_and_wellbores_osdu datetime well_assets wellbore_assets source = Ok calls ->
  map well_key (emitted_wells calls) = map asset_key well_assets
  /\ Forall (osdu_well_shape datetime) (emitted_wells calls).
Proof.
  unfold ingest_wells_and_wellbores_osdu, osdu_records. intros H. bind_case H as st Hrec.
  destruct (upload_emits (osdu_wells _ st) (osdu_wellbores _ st)) as (calls' & Hup & Hw & _).
  rewrite Hup in H. injection H as <-. rewrite Hw.
  apply osdu_wells_loop in Hrec as (new & Hnew & Hkeys & Hshape).
  simpl in Hnew. subst. auto.
Qed.

Lemma osdu_one_well_record_each_witness :
  map well_key
    (emitted_wells
       [wells_ingest (date := unit)
          [mkWellIngestion " A" (Some " A") " A" (mkAssetSource "w1" "OSDU")
             (mkWellhead (of_decimal false 15 (-1)) (of_decimal false 60 0) "EPSG:4326")
             None None None;
           mkWellIngestion " A" (Some " A") " A" (mkAssetSource "w2" "OSDU")
             (mkWellhead (of_decimal false 25 (-1)) (of_decimal false 61 0) "EPSG:4326")
             None None None]])
  = map asset_key [osdu_well_a; osdu_well_b]
  /\ Forall (osdu_well_shape unit)
       (emitted_wells
          [wells_ingest (date := unit)
             [mkWellIngestion " A" (Some " A") " A" (mkAssetSource "w1" "OSDU")
                (mkWellhead (of_decimal false 15 (-1)) (of_decimal false 60 0) "EPSG:4326")
                None None None;
              mkWellIngestion " A" (Some " A") " A" (mkAssetSource "w2" "OSDU")
                (mkWellhead (of_decimal false 25 (-1)) (of_decimal false 61 0) "EPSG:4326")
                None None None]]).
Proof.
  apply (osdu_one_well_record_each unit [osdu_well_a; osdu_well_b] [] "osdu").
  vm_compute. reflexivity.
Defined.

(** ** The EDM mapper over a whole run *)

Section EDMRun.
Variable datetime : Type.
Variable fromisoformat : string -> option datetime.
Variable by_parent : gmap (option string) (list Asset).
Variable datum_dict : gmap string Asset.



Lemma edm_wellbores_keys (well_asset : Asset) (wellbores : list Asset)
    (acc wbis : list WellboreIngestion) :
  for_each (fun acc wellbore =>
              let* wbi := edm_wellbore datum_dict well_asset wellbore in
              Ok (acc ++ [wbi])) wellbores acc = Ok wbis ->
  map wellbore_key wbis
  = map wellbore_key acc
    ++ map (fun wb => (external_id wb, external_id well_asset)) wellbores.
Proof.
  revert acc. induction wellbores as [| wb wellbores IH]; intros acc H; simpl in H.
  - injection H as <-. rewrite app_nil_r. reflexivity.
  - bind_case H as acc1 Hstep. rewrite (IH _ H).
    bind_case Hstep as wbi Hwbi. injection Hstep as <-.
    unfold edm_wellbore in Hwbi. bind_case Hwbi as datum Hdatum. injection Hwbi as <-.
    rewrite map_app, <- app_assoc. reflexivity.
Qed.

Lemma edm_well_wellbores (st st' : edm_state datetime) (well_asset : Asset) :
  well_matching_ids _ st = list_to_set (map wi_matching_id (edm_wells _ st)) ->
  edm_well datetime fromisoformat by_parent datum_dict st well_asset = Ok st' ->
  well_matching_ids _ st' = list_to_set (map wi_matching_id (edm_wells _ st'))
  /\ map wi_matching_id (edm_wells _ st')
     = map wi_matching_id (edm_wells _ st)
       ++ (if decide (clean_name (name well_asset) ∈ map wi_matching_id (edm_wells _ st))
           then [] else [clean_name (name well_asset)])
  /\ map wellbore_key (edm_wellbores _ st')
     = map wellbore_key (edm_wellbores _ st)
       ++ (if decide (clean_name (name well_asset) ∈ map wi_matching_id (edm_wells _ st))
           then []
           else map (fun wb => (external_id wb, external_id well_asset))
                  (default [] (by_parent !! Some (external_id well_asset)))).
Proof.
  intros Hset H.
  destruct (edm_well_keys datetime fromisoformat by_parent datum_dict st st' well_asset
              Hset H) as [Hset' _].
  split; [exact Hset' |]. unfold edm_well in H.
  bind_case H as lon Hlon. bind_case H as lat Hlat. bind_case H as wd Hwd.
  cbn [wi_matching_id] in H.
  destruct (decide (clean_name (name well_asset) ∈ well_matching_ids datetime st))
    as [Hin | Hnin].
  - injection H as <-. rewrite Hset, elem_of_list_to_set in Hin.
    destruct (decide _); [| contradiction]. rewrite !app_nil_r. auto.
  - bind_case H as wbis Hwbis. injection H as <-. cbn [edm_wells edm_wellbores].
    rewrite Hset, elem_of_list_to_set in Hnin.
    destruct (decide _); [contradiction |].
    rewrite map_app. split; [reflexivity |].
    apply edm_wellbores_keys. exact Hwbis.
Qed.

Lemma edm_wellbores_loop_keys (well_assets : list Asset) (st st' : edm_state datetime) :
  well_matching_ids _ st = list_to_set (map wi_matching_id (edm_wells _ st)) ->
  for_each (edm_well datetime fromisoformat by_parent datum_dict) well_assets st = Ok st' ->
  map wellbore_key (edm_wellbores _ st')
  = map wellbore_key (edm_wellbores _ st)
    ++ concat (map (fun w => map (fun wb => (external_id wb, external_id w))
                               (default [] (by_parent !! Some (external_id w))))
                 (kept_wells (map wi_matching_id (edm_wells _ st)) well_assets)).
Proof.
  revert st. induction well_assets as [| w well_assets IH]; intros st Hset H; simpl in H.
  - injection H as <-. simpl. rewrite app_nil_r. reflexivity.
  - bind_case H as st1 Hstep.
    destruct (edm_well_wellbores st st1 w Hset Hstep) as (Hset1 & Hids & Hkeys).
    rewrite (IH st1 Hset1 H), Hkeys, Hids, <- app_assoc. f_equal. simpl.
    destruct (decide _); [rewrite app_nil_r; reflexivity | reflexivity].
Qed.

End EDMRun.





(** X13. A run of the EDM mapper that succeeds uploads wellbore records
    for the wells it keeps only, the first well of every cleaned name: for
    each of them in turn, one record for each wellbore with that parent.
    The wellbores of a well skipped as a duplicate are skipped with it. *)
Theorem edm_wellbores_of_kept_wells (datetime : Type)
    (fromisoformat : string -> option datetime)
    (well_assets wellbore_assets datums : list Asset) (calls : list (call datetime)) :
  ingest_wells_and_wellbores_edm datetime fromisoformat well_assets wellbore_assets datums
  = Ok calls ->
  map wellbore_key (emitted_wellbores calls)
  = concat (map (fun w => map (fun wb => (external_id wb, external_id w))
                             (wellbores_of wellbore_assets w))
              (kept_wells [] well_assets)).
Proof.
  unfold ingest_wells_and_wellbores_edm, edm_records. intros H. bind_case H as st Hloop.
  destruct (upload_emits (edm_wells _ st) (edm_wellbores _ st)) as (calls' & Hup & _ & Hwb).
  rewrite Hup in H. injection H as <-. rewrite Hwb.
  apply edm_wellbores_loop_keys in Hloop; [| reflexivity]. simpl in Hloop.
  rewrite Hloop. f_equal. apply map_ext. intros w. unfold wellbores_of.
  rewrite wellbores_by_parent_filter. reflexivity.
Qed.

Lemma edm_wellbores_of_kept_wells_witness :
  map wellbore_key
    (emitted_wellbores
       [wells_ingest (date := unit)
          [mkWellIngestion " A" None " A" (mkAssetSource "w1" "EDM")
             (mkWellhead (of_decimal false 15 (-1)) (of_decimal false 60 0) "EPSG:4326")
             None None None];
        wellbores_ingest
          [mkWellboreIngestion " A1" " A1" "b1" "w1" (mkAssetSource "b1" "EDM") None]])
  = concat (map (fun w => map (fun wb => (external_id wb, external_id w))
                             (wellbores_of
                                [wellbore_plain; mkAsset "b3" (Some "w2") "Wellbore A3" ∅] w))
              (kept_wells [] [edm_well_a; edm_well_b])).
Proof.
  apply (edm_wellbores_of_kept_wells unit (fun _ => None) [edm_well_a; edm_well_b]
           [wellbore_plain; mkAsset "b3" (Some "w2") "Wellbore A3" ∅] []).
  vm_compute. reflexivity.
Defined.

(** ** What [parse_unit] accepts *)

Theorem run_caps_sound {R : Type} (r : re) :
  forall (s : string) (caps : captures) (k : string -> captures -> option R) (x : R),
    run r s caps k = Some x ->
    exists t s' caps',
      s = t +:+ s' /\ lang_caps r t caps caps' /\ k s' caps' = Some x.
Proof.
  induction r as [p | l | a IHa b IHb | a IHa b IHb | a IHa | p | name a IHa |];
    intros s caps k x H; cbn [run] in H; cbn [lang_caps].
  - destruct s as [| c s]; [discriminate |]. destruct (p c) eqn:Hc; [| discriminate].
    exists (String c ""), s, caps. eauto 10.
  - destruct (strip_prefix l s) as [s' |] eqn:Hl; [| discriminate].
    exists l, s', caps. auto using strip_prefix_some.
  - destruct (IHa _ _ _ _ H) as (t1 & s1 & caps1 & -> & L1 & H1).
    destruct (IHb _ _ _ _ H1) as (t2 & s2 & caps2 & -> & L2 & H2).
    exists (t1 +:+ t2), s2, caps2. rewrite append_assoc. eauto 10.
  - destruct (run a s caps k) as [y |] eqn:Ha.
    + injection H as ->. destruct (IHa _ _ _ _ Ha) as (t & s' & caps' & -> & L & Hk).
      exists t, s', caps'. auto.
    + destruct (IHb _ _ _ _ H) as (t & s' & caps' & -> & L & Hk).
      exists t, s', caps'. auto.
  - destruct (run a s caps k) as [y |] eqn:Ha.
    + injection H as ->. destruct (IHa _ _ _ _ Ha) as (t & s' & caps' & -> & L & Hk).
      exists t, s', caps'. auto.
    + exists "", s, caps. auto.
  - apply star_sound in H as (t & s' & -> & Ht & Hk). exists t, s', caps. auto.
  - destruct (IHa _ _ _ _ H) as (t & s' & caps' & -> & L & Hk).
    rewrite take_chars_append in Hk. exists t, s', ((name, t) :: caps'). eauto.
  - destruct (is_empty s || String.eqb s newline); [| discriminate].
    exists "", s, caps. auto.
Qed.

Lemma lang_caps_lang (r : re) (t : string) (caps caps' : captures) :
  lang_caps r t caps caps' -> lang r t.
Proof.
  revert t caps caps'.
  induction r as [p | l | a IHa b IHb | a IHa b IHb | a IHa | p | name a IHa |];
    intros t caps caps'; cbn [lang_caps lang].
  - intros [H _]. exact H.
  - intros [H _]. exact H.
  - intros (t1 & t2 & caps1 & -> & H1 & H2). eauto 10.
  - intros [H | H]; eauto.
  - intros [[H _] | H]; eauto.
  - intros [H _]. exact H.
  - intros (caps1 & H & _). eauto.
  - intros [H _]. exact H.
Qed.

Lemma lang_factor_signed (t : string) : lang factor_re t -> signed_decimal t.
Proof. intros H. destruct (lang_factor_re t H) as (sg & b & ? & ? & ?). exists sg, b. auto. Qed.

Lemma signed_decimal_float (t : string) :
  signed_decimal t -> exists f, PyFloat.float_of_str t = Some f.
Proof.
  intros (sg & b & -> & Hsg & Hb).
  pose proof (unsigned_decimal_numeric b Hb) as Hnum.
  destruct (unsigned_decimal_head b Hb) as (c & s & E & Hc & Hm & Hp).
  rewrite float_of_str_numeric.
  - unfold PyFloat.parse_number.
    destruct Hsg as [-> | [-> | ->]].
    + rewrite append_empty_l, E, (split_sign_none c s Hm Hp), <- E.
      apply parse_unsigned_decimal. exact Hb.
    + change (PyFloat.split_sign ("+" +:+ b)) with (false, b).
      apply parse_unsigned_decimal. exact Hb.
    + change (PyFloat.split_sign ("-" +:+ b)) with (true, b).
      apply parse_unsigned_decimal. exact Hb.
  - rewrite all_chars_append, Hnum, andb_true_r.
    destruct Hsg as [-> | [-> | ->]]; reflexivity.
Qed.

Lemma signed_decimal_nonempty (t : string) : signed_decimal t -> is_empty t = false.
Proof.
  intros (sg & b & -> & Hsg & Hb).
  destruct (unsigned_decimal_head b Hb) as (c & s & -> & _).
  destruct Hsg as [-> | [-> | ->]]; reflexivity.
Qed.

(** What a match of the whole pattern records. *)
Lemma fullmatch_unit_regex (s : string) (caps : captures) :
  fullmatch _unit_regex s = Some caps ->
  exists ftext ws word,
    s = ftext +:+ ws +:+ word
    /\ (ftext = "" \/ signed_decimal ftext)
    /\ all_chars is_space ws = true
    /\ group caps "unit" = Some word
    /\ group caps "factor" = (if is_empty ftext then None else Some ftext).
Proof.
  unfold fullmatch. intros H.
  apply run_caps_sound in H as (t & s' & caps' & -> & L & Hk).
  destruct s' as [| c s']; [| discriminate]. injection Hk as <-.
  rewrite append_empty_r. unfold _unit_regex in L. cbn [lang_caps] in L.
  destruct L as (t1 & t23 & caps1 & -> & L1 & t2 & t3 & caps2 & -> & [Hws ->] & capsw & Lw & ->).
  assert (Hcw : capsw = caps1).
  { unfold Plus in Lw. cbn [lang_caps] in Lw.
    destruct Lw as (? & ? & ? & _ & [_ ->] & [_ ->]). reflexivity. }
  subst capsw. exists t1, t2, t3. split; [reflexivity |].
  destruct L1 as [[-> ->] | (caps0 & LF & ->)].
  - repeat split; auto.
  - pose proof (lang_factor_signed t1 (lang_caps_lang _ _ _ _ LF)) as Hsd.
    rewrite (signed_decimal_nonempty t1 Hsd). repeat split; auto.
Qed.

Lemma star_greedy {R : Type} (p : ascii -> bool) (t rest : string)
    (k : string -> option R) :
  all_chars p t = true ->
  match rest with
  | EmptyString => True
  | String c _ => p c = false
  end ->
  is_Some (k rest) ->
  star p (t +:+ rest) k = k rest.
Proof.
  intros Ht Hrest [x Hk]. induction t as [| c t IH].
  - rewrite append_empty_l. destruct rest as [| c rest]; [reflexivity |].
    simpl. rewrite Hrest. reflexivity.
  - simpl in Ht. apply andb_true_iff in Ht as [Hc Ht].
    rewrite append_char_l. simpl. rewrite Hc, (IH Ht), Hk. reflexivity.
Qed.

Lemma star_chr_fails {R : Type} (p q : ascii -> bool) (t rest : string)
    (caps : captures) (k : string -> captures -> option R) :
  all_chars p t = true ->
  all_chars (fun c => negb (q c)) t = true ->
  match rest with
  | EmptyString => True
  | String c _ => p c = false /\ q c = false
  end ->
  star p (t +:+ rest) (fun s' => run (Chr q) s' caps k) = None.
Proof.
  intros Hp Hq Hrest. induction t as [| c t IH].
  - rewrite append_empty_l. destruct rest as [| c rest]; [reflexivity |].
    destruct Hrest as [Hpc Hqc]. cbn [star]. rewrite Hpc. cbn [run].
    rewrite Hqc. reflexivity.
  - simpl in Hp, Hq. apply andb_true_iff in Hp as [Hpc Hp].
    apply andb_true_iff in Hq as [Hqc Hq]. apply negb_true_iff in Hqc.
    rewrite append_char_l. cbn [star]. rewrite Hpc, (IH Hp Hq). cbn [run].
    rewrite Hqc. reflexivity.
Qed.

Lemma first_some {R : Type} (o e : option R) :
  is_Some o -> match o with Some x => Some x | None => e end = o.
Proof. intros [x ->]. reflexivity. Qed.

Lemma take_chars_all (s : string) : take_chars (String.length s - 0) s = s.
Proof.
  rewrite Nat.sub_0_r. induction s as [| c s IH]; [reflexivity |].
  simpl. rewrite IH. reflexivity.
Qed.

Lemma plain_not_digit (c : ascii) : is_numeric c = false -> is_digit c = false.
Proof. unfold is_numeric. intros H. apply orb_false_iff in H as [H _].
  apply orb_false_iff in H as [H _]. exact H. Qed.

Lemma plain_not_dot (c : ascii) : is_numeric c = false -> is_char "." c = false.
Proof. unfold is_numeric. intros H. apply orb_false_iff in H as [H _].
  apply orb_false_iff in H as [_ H]. exact H. Qed.

Lemma plain_not_sign (c : ascii) : is_numeric c = false -> is_sign c = false.
Proof. unfold is_numeric. intros H. apply orb_false_iff in H as [_ H]. exact H. Qed.

Lemma digit_not_dot_b (c : ascii) : is_digit c = true -> negb (is_char "." c) = true.
Proof. by_ascii_cases c. Qed.

Lemma digit_not_sign_b (c : ascii) : is_digit c = true -> is_sign c = false.
Proof. by_ascii_cases c. Qed.

Lemma space_plain (c : ascii) : is_space c = true -> is_numeric c = false.
Proof. by_ascii_cases c. Qed.

Lemma plain_digit_rest (rest : string) :
  starts_plain rest ->
  match rest with
  | EmptyString => True
  | String c _ => is_digit c = false
  end.
Proof. destruct rest as [| c rest]; [auto |]. apply plain_not_digit. Qed.

Lemma run_plus_greedy {R : Type} (p : ascii -> bool) (d : ascii) (ds rest : string)
    (caps : captures) (k : string -> captures -> option R) :
  p d = true ->
  all_chars p ds = true ->
  match rest with
  | EmptyString => True
  | String c _ => p c = false
  end ->
  is_Some (k rest caps) ->
  run (Plus p) (String d ds +:+ rest) caps k = k rest caps.
Proof.
  intros Hd Hds Hrest Hk. rewrite append_char_l. unfold Plus. cbn [run].
  rewrite Hd. apply (star_greedy p ds rest (fun s' => k s' caps)); assumption.
Qed.

Lemma run_point_re {R : Type} (ds rest : string) (caps : captures)
    (k : string -> captures -> option R) :
  all_chars is_digit ds = true ->
  is_Some (k rest (("2", ds +:+ ".") :: caps)) ->
  run point_re (ds +:+ String "." rest) caps k
  = k rest (("2", ds +:+ ".") :: caps).
Proof.
  intros Hds Hk. unfold point_re. cbn [run].
  assert (E : take_chars
                (String.length (ds +:+ String "." rest) - String.length rest)
                (ds +:+ String "." rest) = ds +:+ ".").
  { change (String "." rest) with ("." +:+ rest). rewrite <- append_assoc.
    apply take_chars_append. }
  rewrite (star_greedy is_digit ds (String "." rest)); cbn [is_char]; simpl Ascii.eqb;
    rewrite ?E; auto.
Qed.

Lemma run_point_re_fails {R : Type} (d : ascii) (ds rest : string) (caps : captures)
    (k : string -> captures -> option R) :
  is_digit d = true ->
  all_chars is_digit ds = true ->
  starts_plain rest ->
  run point_re (String d ds +:+ rest) caps k = None.
Proof.
  intros Hd Hds Hrest. unfold point_re.
  change (run (Group "2" (Seq (Star is_digit) (Chr (is_char "."))))
            (String d ds +:+ rest) caps k)
    with (star is_digit (String d ds +:+ rest)
            (fun s' => run (Chr (is_char ".")) s' caps
                         (fun s'' caps' =>
                            k s'' (("2", take_chars
                                           (String.length (String d ds +:+ rest)
                                            - String.length s'')
                                           (String d ds +:+ rest)) :: caps')))).
  apply star_chr_fails.
  - cbn [all_chars]. rewrite Hd. exact Hds.
  - cbn [all_chars]. rewrite (digit_not_dot_b d Hd). cbn [andb].
    apply (all_chars_weaken is_digit); [apply digit_not_dot_b | exact Hds].
  - destruct rest as [| c rest]; [exact I |]. simpl in Hrest.
    split; [apply plain_not_digit | apply plain_not_dot]; exact Hrest.
Qed.

(** An unsigned decimal in front of text that starts with none of its
    characters is matched whole at the first try. *)
Lemma run_unsigned {R : Type} (b rest : string) (caps : captures) :
  unsigned_decimal b ->
  starts_plain rest ->
  exists caps',
    group caps' "factor" = group caps "factor"
    /\ group caps' "unit" = group caps "unit"
    /\ forall k : string -> captures -> option R,
        is_Some (k rest caps') ->
        run (Seq (Opt point_re) (Plus is_digit)) (b +:+ rest) caps k = k rest caps'.
Proof.
  intros Hb Hrest.
  destruct Hb as [(ds & d & ds' & -> & Hds & Hd & Hds') | (d & ds' & -> & Hd & Hds')].
  - exists (("2", ds +:+ ".") :: caps). split; [reflexivity |]. split; [reflexivity |].
    intros k Hk. cbn [run]. rewrite append_assoc.
    change (String "." (String d ds') +:+ rest)
      with (String "." (String d ds' +:+ rest)).
    assert (Hplus : run (Plus is_digit) (String d ds' +:+ rest)
                      (("2", ds +:+ ".") :: caps) k
                    = k rest (("2", ds +:+ ".") :: caps)).
    { apply run_plus_greedy;
        [exact Hd | exact Hds' | apply plain_digit_rest, Hrest | exact Hk]. }
    rewrite run_point_re; cbv beta; rewrite ?Hplus; [| exact Hds | exact Hk].
    apply first_some. exact Hk.
  - exists caps. split; [reflexivity |]. split; [reflexivity |].
    intros k Hk. cbn [run].
    rewrite (run_point_re_fails d ds' rest) by assumption.
    apply run_plus_greedy;
      [exact Hd | exact Hds' | apply plain_digit_rest, Hrest | exact Hk].
Qed.

(** A factor in front of text that starts with none of its characters
    is matched whole at the first try. *)
Lemma run_factor_re {R : Type} (sg b rest : string) (caps : captures) :
  sg = "" \/ sg = "+" \/ sg = "-" ->
  unsigned_decimal b ->
  starts_plain rest ->
  exists caps',
    group caps' "factor" = group caps "factor"
    /\ group caps' "unit" = group caps "unit"
    /\ forall k : string -> captures -> option R,
        is_Some (k rest caps') ->
        run factor_re (sg +:+ b +:+ rest) caps k = k rest caps'.
Proof.
  intros Hsg Hb Hrest.
  destruct (run_unsigned (R := R) b rest caps Hb Hrest) as (caps' & Hf & Hu & Hrun).
  exists caps'. split; [exact Hf |]. split; [exact Hu |]. intros k Hk.
  change factor_re with (Seq (Opt (Chr is_sign)) (Seq (Opt point_re) (Plus is_digit))).
  change (run (Seq (Opt (Chr is_sign)) (Seq (Opt point_re) (Plus is_digit)))
            (sg +:+ b +:+ rest) caps k)
    with (match run (Chr is_sign) (sg +:+ b +:+ rest) caps
                  (fun s' caps' => run (Seq (Opt point_re) (Plus is_digit)) s' caps' k)
          with
          | Some x => Some x
          | None => run (Seq (Opt point_re) (Plus is_digit)) (sg +:+ b +:+ rest) caps k
          end).
  destruct Hsg as [-> | [-> | ->]].
  - rewrite append_empty_l.
    destruct (unsigned_decimal_head b Hb) as (c & s & E & Hc & Hm & Hp).
    assert (Hns : is_sign c = false).
    { unfold is_sign, is_char. apply orb_false_iff. split; apply Ascii.eqb_neq; congruence. }
    subst b. rewrite (Hrun k Hk). rewrite append_char_l.
    change (run (Chr is_sign) (String c (s +:+ rest)) caps
              (fun s' caps' => run (Seq (Opt point_re) (Plus is_digit)) s' caps' k))
      with (if is_sign c
            then run (Seq (Opt point_re) (Plus is_digit)) (s +:+ rest) caps k
            else None).
    rewrite Hns. reflexivity.
  - change ("+" +:+ b +:+ rest) with (String "+" (b +:+ rest)).
    change (run (Chr is_sign) (String "+" (b +:+ rest)) caps
              (fun s' caps' => run (Seq (Opt point_re) (Plus is_digit)) s' caps' k))
      with (run (Seq (Opt point_re) (Plus is_digit)) (b +:+ rest) caps k).
    rewrite (Hrun k Hk). apply first_some. exact Hk.
  - change ("-" +:+ b +:+ rest) with (String "-" (b +:+ rest)).
    change (run (Chr is_sign) (String "-" (b +:+ rest)) caps
              (fun s' caps' => run (Seq (Opt point_re) (Plus is_digit)) s' caps' k))
      with (run (Seq (Opt point_re) (Plus is_digit)) (b +:+ rest) caps k).
    rewrite (Hrun k Hk). apply first_some. exact Hk.
Qed.

Lemma star_all {R : Type} (p : ascii -> bool) (t : string) (k : string -> option R) :
  all_chars p t = true -> is_Some (k "") -> star p t k = k "".
Proof.
  intros Ht Hk. pose proof (star_greedy p t "" k Ht I Hk) as H.
  rewrite append_empty_r in H. exact H.
Qed.

Lemma run_seq_eq {R : Type} (a b : re) (s : string) (caps : captures)
    (k : string -> captures -> option R) :
  run (Seq a b) s caps k = run a s caps (fun s' caps' => run b s' caps' k).
Proof. reflexivity. Qed.

Lemma run_opt_eq {R : Type} (a : re) (s : string) (caps : captures)
    (k : string -> captures -> option R) :
  run (Opt a) s caps k
  = match run a s caps k with
    | Some x => Some x
    | None => k s caps
    end.
Proof. reflexivity. Qed.

Lemma run_group_eq {R : Type} (name : string) (a : re) (s : string) (caps : captures)
    (k : string -> captures -> option R) :
  run (Group name a) s caps k
  = run a s caps
      (fun s' caps' =>
         k s' ((name, take_chars (String.length s - String.length s') s) :: caps')).
Proof. reflexivity. Qed.

Lemma run_star_eq {R : Type} (p : ascii -> bool) (s : string) (caps : captures)
    (k : string -> captures -> option R) :
  run (Star p) s caps k = star p s (fun s' => k s' caps).
Proof. reflexivity. Qed.

(** Text that starts with none of the characters of a factor has no
    factor in front. *)
Lemma run_factor_re_fails {R : Type} (s : string) (caps : captures)
    (k : string -> captures -> option R) :
  starts_plain s -> run factor_re s caps k = None.
Proof.
  intros Hs. destruct s as [| c s]; [reflexivity |]. simpl in Hs.
  unfold factor_re, Plus. cbn [run star].
  rewrite (plain_not_sign c Hs), (plain_not_digit c Hs), (plain_not_dot c Hs).
  reflexivity.
Qed.

(** The blanks and the unit word at the end of the text. *)
Lemma run_unit_tail (ws : string) (c : ascii) (w : string) (caps : captures) :
  all_chars is_space ws = true ->
  is_space c = false ->
  is_word c = true ->
  all_chars is_word w = true ->
  run (Seq (Star is_space) (Group "unit" (Plus is_word))) (ws +:+ String c w) caps
    at_string_end
  = Some (("unit", String c w) :: caps).
Proof.
  intros Hws Hsp Hc Hw.
  assert (Hword : run (Group "unit" (Plus is_word)) (String c w) caps at_string_end
                  = Some (("unit", String c w) :: caps)).
  { rewrite run_group_eq. unfold Plus. cbn [run]. rewrite Hc.
    rewrite star_all; [| exact Hw |]; rewrite take_chars_all; [reflexivity |].
    eexists. reflexivity. }
  rewrite run_seq_eq, run_star_eq.
  rewrite star_greedy; [exact Hword | exact Hws | exact Hsp |].
  rewrite Hword. eexists. reflexivity.
Qed.

Lemma unit_map_cases (word : string) (u : DistanceUnitEnum) :
  _unit_map !! word = Some u ->
  In (word, u)
    [ ("m", meter); ("meter", meter); ("meters", meter);
      ("in", inch); ("inch", inch); ("inches", inch);
      ("feet", foot); ("foot", foot); ("ft", foot) ].
Proof.
  unfold _unit_map, _unit_map_by_unit. cbn [fold_left]. intros H.
  repeat (apply lookup_insert_Some in H as [[<- <-] | [_ H]]; [simpl; tauto |]).
  rewrite lookup_empty in H. discriminate.
Qed.

(** A key of [_unit_map] is a word of letters, and neither of the two
    texts [parse_unit] treats apart. *)
Lemma unit_word_shape (word : string) (u : DistanceUnitEnum) :
  _unit_map !! word = Some u ->
  exists c w,
    word = String c w
    /\ is_word c = true /\ all_chars is_word w = true
    /\ is_space c = false /\ is_numeric c = false
    /\ String.eqb word "mm" = false /\ String.eqb word "m rkb" = false.
Proof.
  intros H. apply unit_map_cases in H. simpl in H.
  repeat (destruct H as [H | H]; [injection H as <- <-; eexists _, _; repeat split |]).
  destruct H.
Qed.

Lemma head_not_m (c : ascii) (r : string) :
  Ascii.eqb c "m" = false ->
  String.eqb (String c r) "mm" = false /\ String.eqb (String c r) "m rkb" = false.
Proof. intros H. cbn [String.eqb]. rewrite H. split; reflexivity. Qed.

Lemma numeric_not_m (c : ascii) : is_numeric c = true -> Ascii.eqb c "m" = false.
Proof. by_ascii_cases c. Qed.

Lemma space_not_m (c : ascii) : is_space c = true -> Ascii.eqb c "m" = false.
Proof. by_ascii_cases c. Qed.

Lemma signed_decimal_head (t : string) :
  signed_decimal t -> exists c r, t = String c r /\ is_numeric c = true.
Proof.
  intros (sg & b & -> & Hsg & Hb).
  destruct (unsigned_decimal_head b Hb) as (c & s & -> & Hc & _).
  destruct Hsg as [-> | [-> | ->]]; eexists _, _; split; try reflexivity; exact Hc.
Qed.

Lemma blanks_word_plain (ws word : string) (u : DistanceUnitEnum) :
  all_chars is_space ws = true ->
  _unit_map !! word = Some u ->
  starts_plain (ws +:+ word).
Proof.
  intros Hws Hu. destruct ws as [| c ws].
  - destruct (unit_word_shape word u Hu) as (c & w & -> & _ & _ & _ & Hn & _). exact Hn.
  - cbn [all_chars] in Hws. apply andb_true_iff in Hws as [Hc _].
    apply space_plain. exact Hc.
Qed.

(** The texts the pattern is tried on are not the two [parse_unit]
    treats apart. *)
Lemma unit_text_not_special (ftext ws word : string) (u : DistanceUnitEnum) :
  ftext = "" \/ signed_decimal ftext ->
  all_chars is_space ws = true ->
  _unit_map !! word = Some u ->
  String.eqb (ftext +:+ ws +:+ word) "mm" = false
  /\ String.eqb (ftext +:+ ws +:+ word) "m rkb" = false.
Proof.
  intros [-> | Hf] Hws Hu.
  - rewrite append_empty_l. destruct ws as [| c ws].
    + destruct (unit_word_shape word u Hu) as (c & w & -> & _ & _ & _ & _ & H1 & H2).
      auto.
    + cbn [all_chars] in Hws. apply andb_true_iff in Hws as [Hc _].
      rewrite append_char_l. apply head_not_m, space_not_m, Hc.
  - destruct (signed_decimal_head ftext Hf) as (c & r & -> & Hc).
    rewrite append_char_l. apply head_not_m, numeric_not_m, Hc.
Qed.

(** The pattern matches every text made of an optional factor, blanks
    and a key of [_unit_map], and records the factor and the key. *)
Lemma fullmatch_unit_regex_complete (ftext ws word : string) (u : DistanceUnitEnum) :
  ftext = "" \/ signed_decimal ftext ->
  all_chars is_space ws = true ->
  _unit_map !! word = Some u ->
  exists caps,
    fullmatch _unit_regex (ftext +:+ ws +:+ word) = Some caps
    /\ group caps "unit" = Some word
    /\ group caps "factor" = (if is_empty ftext then None else Some ftext).
Proof.
  intros Hf Hws Hu.
  pose proof (blanks_word_plain ws word u Hws Hu) as Hplain.
  destruct (unit_word_shape word u Hu) as (c & w & E & Hc & Hw & Hsp & _).
  change (fullmatch _unit_regex (ftext +:+ ws +:+ word))
    with (run _unit_regex (ftext +:+ ws +:+ word) [] at_string_end).
  unfold _unit_regex. rewrite run_seq_eq, run_opt_eq, run_group_eq.
  destruct Hf as [-> | Hf].
  - rewrite append_empty_l, run_factor_re_fails by exact Hplain.
    subst word. rewrite run_unit_tail by assumption.
    eexists. split; [reflexivity |]. split; reflexivity.
  - pose proof (signed_decimal_nonempty ftext Hf) as Hne. rewrite Hne.
    destruct Hf as (sg & b & -> & Hsg & Hb).
    destruct (run_factor_re (R := captures) sg b (ws +:+ word) [] Hsg Hb Hplain)
      as (caps' & Hgf & Hgu & Hrun).
    assert (Htail :
              run (Seq (Star is_space) (Group "unit" (Plus is_word))) (ws +:+ word)
                (("factor",
                  take_chars
                    (String.length ((sg +:+ b) +:+ ws +:+ word)
                     - String.length (ws +:+ word))
                    ((sg +:+ b) +:+ ws +:+ word)) :: caps')
                at_string_end
              = Some (("unit", word) :: ("factor", sg +:+ b) :: caps')).
    { rewrite take_chars_append. subst word. apply run_unit_tail; assumption. }
    rewrite append_assoc in Htail |- *.
    rewrite Hrun; cbv beta; rewrite Htail; [| eexists; reflexivity].
    eexists. split; [reflexivity |]. split; reflexivity.
Qed.

(** X14. [parse_unit] gives a unit for exactly these texts: [mm], which
    is a metre with factor 0.001; [m rkb], a metre with the default
    factor; and an optional signed decimal, any blanks and a key of
    [_unit_map], which is the unit of that key with the value of the
    decimal as factor, 1.0 without a decimal. On every other text it
    gives [None]. *)
Theorem parse_unit_accepts (s : string) (pu : DistanceUnit) :
  parse_unit s = Ok (Some pu)
  <-> (s = "mm" /\ pu = mkDistanceUnit meter (Some (of_decimal false 1 (-3))))
      \/ (s = "m rkb" /\ pu = mkDistanceUnit meter DistanceUnit_default_factor)
      \/ exists ftext ws word u,
           s = ftext +:+ ws +:+ word
           /\ (ftext = "" \/ signed_decimal ftext)
           /\ all_chars is_space ws = true
           /\ _unit_map !! word = Some u
           /\ pu = mkDistanceUnit u (Some (factor_of ftext)).
Proof.
  split.
  - unfold parse_unit. intros H.
    destruct (String.eqb s "mm") eqn:Emm.
    { apply String.eqb_eq in Emm. left. split; [exact Emm | congruence]. }
    destruct (String.eqb s "m rkb") eqn:Erkb.
    { apply String.eqb_eq in Erkb. right. left. split; [exact Erkb | congruence]. }
    destruct (fullmatch _unit_regex s) as [caps |] eqn:Hm; [| discriminate].
    destruct (fullmatch_unit_regex s caps Hm) as (ftext & ws & word & E & Hf & Hws & Hu & Hfac).
    right. right. exists ftext, ws, word.
    rewrite Hu, Hfac in H. cbn [mbind option_bind] in H.
    assert (Hfactor :
              (if is_empty ftext then Ok one
               else match PyFloat.float_of_str ftext with
                    | Some f => Ok f
                    | None => Raise ValueError
                    end) = Ok (factor_of ftext)).
    { unfold factor_of. destruct (is_empty ftext) eqn:Ee; [reflexivity |].
      destruct Hf as [-> | Hf]; [discriminate |].
      destruct (signed_decimal_float ftext Hf) as (f & ->). reflexivity. }
    destruct (is_empty ftext) eqn:Ee.
    + cbn [rbind] in H. destruct (_unit_map !! word) as [u |] eqn:Hword; [| discriminate].
      exists u. injection H as <-. unfold factor_of. rewrite Ee. auto.
    + rewrite Ee, Hfactor in H. cbn [rbind] in H.
      destruct (_unit_map !! word) as [u |] eqn:Hword; [| discriminate].
      exists u. injection H as <-. auto.
  - intros [[-> ->] | [[-> ->] | (ftext & ws & word & u & -> & Hf & Hws & Hu & ->)]];
      [reflexivity | reflexivity |].
    destruct (unit_text_not_special ftext ws word u Hf Hws Hu) as [Emm Erkb].
    destruct (fullmatch_unit_regex_complete ftext ws word u Hf Hws Hu)
      as (caps & Hm & Hgu & Hgf).
    unfold parse_unit. rewrite Emm, Erkb, Hm, Hgu, Hgf. cbn [mbind option_bind].
    rewrite Hu. unfold factor_of.
    destruct (is_empty ftext) eqn:Ee; [reflexivity |].
    destruct Hf as [-> | Hf]; [discriminate |].
    destruct (signed_decimal_float ftext Hf) as (f & ->). rewrite Ee. reflexivity.
Qed.

(** ** [measurement_columns] *)

Section MeasurementColumns.
Context {MeasurementType MnemonicMatch : Type}.
Variable measurement_type : MnemonicMatch -> MeasurementType.
Variable search : list string -> result (list (MnemonicMatchGroup MnemonicMatch)).
Variable find_best_match : Column -> list MnemonicMatch -> option MnemonicMatch.

Let ids_body (ids : list string) (x : Column) : result (list string) :=
  match col_externalId x with
  | Some extid => Ok (ids ++ [extid])
  | None => Raise (KeyError "externalId")
  end.

Lemma external_ids_loop (columns : list Column) (acc : list string) :
  for_each ids_body columns acc
  = match mapM col_externalId columns with
    | Some ids => Ok (acc ++ ids)
    | None => Raise (KeyError "externalId")
    end.
Proof.
  revert acc. induction columns as [| x columns IH]; intros acc; cbn [for_each mapM].
  - simpl. rewrite app_nil_r. reflexivity.
  - unfold ids_body at 1. destruct (col_externalId x) as [extid |]; [| reflexivity].
    cbn [rbind]. rewrite IH. simpl.
    destruct (mapM col_externalId columns) as [ids |]; [| reflexivity].
    simpl. rewrite <- app_assoc. reflexivity.
Qed.

Lemma column_external_ids_spec (columns : list Column) :
  column_external_ids columns
  = match mapM col_externalId columns with
    | Some ids => Ok ids
    | None => Raise (KeyError "externalId")
    end.
Proof. unfold column_external_ids. apply (external_ids_loop columns []). Qed.

Lemma mapM_external_ids_none (columns : list Column) (col : Column) :
  In col columns -> col_externalId col = None ->
  mapM col_externalId columns = None.
Proof.
  induction columns as [| x columns IH]; intros Hin Hnone; [destruct Hin |].
  simpl. destruct Hin as [-> | Hin].
  - rewrite Hnone. reflexivity.
  - rewrite (IH Hin Hnone). destruct (col_externalId x); reflexivity.
Qed.

Lemma omap_selected_cons (col : Column) (g : MnemonicMatchGroup MnemonicMatch)
    (pairs : list (Column * MnemonicMatchGroup MnemonicMatch)) :
  omap (selected measurement_type find_best_match) ((col, g) :: pairs)
  = match find_best_match col (matches g) with
    | Some m =>
        mkDepthMeasurementColumn (measurement_type m)
          (default "" (default ∅ (col_metadata col) !! "unit")) (mnemonic g)
        :: omap (selected measurement_type find_best_match) pairs
    | None => omap (selected measurement_type find_best_match) pairs
    end.
Proof.
  change (omap (selected measurement_type find_best_match) ((col, g) :: pairs))
    with (match selected measurement_type find_best_match (col, g) with
          | Some y => y :: omap (selected measurement_type find_best_match) pairs
          | None => omap (selected measurement_type find_best_match) pairs
          end).
  unfold selected at 1. cbn [fst snd].
  destruct (find_best_match col (matches g)); reflexivity.
Qed.

Lemma measurement_loop (pairs : list (Column * MnemonicMatchGroup MnemonicMatch))
    (acc : list (DepthMeasurementColumn MeasurementType)) :
  for_each (measurement_column measurement_type find_best_match) pairs acc
  = if existsb (lacks_metadata find_best_match) pairs
    then Raise (KeyError "metadata")
    else Ok (acc ++ omap (selected measurement_type find_best_match) pairs).
Proof.
  revert acc. induction pairs as [| [col g] pairs IH]; intros acc.
  - simpl. rewrite app_nil_r. reflexivity.
  - cbn [for_each existsb]. rewrite omap_selected_cons.
    unfold measurement_column at 1, lacks_metadata at 1. cbn [fst snd].
    destruct (find_best_match col (matches g)) as [m |].
    + destruct (col_metadata col) as [md |]; [| reflexivity].
      cbn [rbind orb default]. rewrite IH.
      destruct (existsb _ pairs); [reflexivity |].
      rewrite <- app_assoc. reflexivity.
    + cbn [rbind orb]. apply IH.
Qed.

Lemma selected_sublist (columns : list Column)
    (response : list (MnemonicMatchGroup MnemonicMatch)) :
  sublist
    (map dmc_column_external_id
       (omap (selected measurement_type find_best_match) (zip columns response)))
    (map mnemonic response).
Proof.
  revert response. induction columns as [| col columns IH]; intros response.
  - apply sublist_nil_l.
  - destruct response as [| g response]; [apply sublist_nil_l |].
    cbn [zip zip_with]. fold (zip columns response). rewrite omap_selected_cons.
    destruct (find_best_match col (matches g)) as [m |]; cbn [map].
    + apply sublist_skip, IH.
    + apply sublist_cons, IH.
Qed.

Lemma selected_length (columns : list Column)
    (response : list (MnemonicMatchGroup MnemonicMatch)) :
  (length (omap (selected measurement_type find_best_match) (zip columns response))
   <= Nat.min (length columns) (length response))%nat.
Proof.
  revert response. induction columns as [| col columns IH]; intros response.
  - simpl. lia.
  - destruct response as [| g response]; [simpl; lia |].
    cbn [zip zip_with]. fold (zip columns response). rewrite omap_selected_cons.
    specialize (IH response).
    destruct (find_best_match col (matches g)); simpl in *; lia.
Qed.

End MeasurementColumns.

(** X15. [measurement_columns] reads the external id of every column
    before it asks the service: when a column has none the result is
    [KeyError("externalId")], whatever the service answers and whatever
    match finder is given. *)
Theorem measurement_columns_need_external_ids
    {MeasurementType MnemonicMatch : Type}
    (measurement_type : MnemonicMatch -> MeasurementType)
    (search : list string -> result (list (MnemonicMatchGroup MnemonicMatch)))
    (find_best_match : Column -> list MnemonicMatch -> option MnemonicMatch)
    (columns : list Column) (col : Column) :
  In col columns ->
  col_externalId col = None ->
  measurement_columns measurement_type search find_best_match columns
  = Raise (KeyError "externalId").
Proof.
  intros Hin Hnone. unfold measurement_columns.
  rewrite column_external_ids_spec, (mapM_external_ids_none columns col Hin Hnone).
  reflexivity.
Qed.

Lemma measurement_columns_need_external_ids_witness :
  measurement_columns (fun m : string => m)
    (fun _ => Ok [mkMnemonicMatchGroup "GR" ["gamma ray"]]) _find_first_match
    [mkColumn None None (Some ∅)]
  = Raise (KeyError "externalId").
Proof.
  apply (measurement_columns_need_external_ids _ _ _ _ (mkColumn None None (Some ∅)));
    [left; reflexivity | reflexivity].
Defined.

(** X16. When every column has an external id and the service answers
    [response] to the list of them, [measurement_columns] pairs the
    columns with the groups of the answer by position, up to the shorter
    of the two. It raises [KeyError("metadata")] when a match is
    selected for a column without metadata; otherwise it returns, in
    order, one record for each pair with a selected match: the
    measurement type of the match, the unit text of the column (empty
    when the metadata has none) and the mnemonic of the group. *)
Theorem measurement_columns_result
    {MeasurementType MnemonicMatch : Type}
    (measurement_type : MnemonicMatch -> MeasurementType)
    (search : list string -> result (list (MnemonicMatchGroup MnemonicMatch)))
    (find_best_match : Column -> list MnemonicMatch -> option MnemonicMatch)
    (columns : list Column) (ids : list string)
    (response : list (MnemonicMatchGroup MnemonicMatch)) :
  mapM col_externalId columns = Some ids ->
  search ids = Ok response ->
  measurement_columns measurement_type search find_best_match columns
  = if existsb (lacks_metadata find_best_match) (zip columns response)
    then Raise (KeyError "metadata")
    else Ok (omap (selected measurement_type find_best_match) (zip columns response)).
Proof.
  intros Hids Hsearch. unfold measurement_columns.
  rewrite column_external_ids_spec, Hids. cbn [rbind]. rewrite Hsearch. cbn [rbind].
  rewrite measurement_loop. reflexivity.
Qed.

Lemma measurement_columns_result_witness :
  measurement_columns (fun m : string => m)
    (fun _ => Ok [mkMnemonicMatchGroup "GR" ["gamma ray"];
                  mkMnemonicMatchGroup "XX" [];
                  mkMnemonicMatchGroup "RHOB" ["density"]])
    _find_first_match
    [mkColumn (Some "gr") None (Some {["unit" := "gAPI"]});
     mkColumn (Some "xx") None None]
  = Ok [mkDepthMeasurementColumn "gamma ray" "gAPI" "GR"].
Proof.
  rewrite (measurement_columns_result _ _ _ _ ["gr"; "xx"]
             [mkMnemonicMatchGroup "GR" ["gamma ray"];
              mkMnemonicMatchGroup "XX" [];
              mkMnemonicMatchGroup "RHOB" ["density"]]);
    reflexivity.
Defined.

(** X17. The external ids of the records [measurement_columns] returns
    are mnemonics of the service's answer, in the order of the answer,
    each group used once at most; there are no more records than
    columns. *)
Theorem measurement_columns_mnemonics
    {MeasurementType MnemonicMatch : Type}
    (measurement_type : MnemonicMatch -> MeasurementType)
    (search : list string -> result (list (MnemonicMatchGroup MnemonicMatch)))
    (find_best_match : Column -> list MnemonicMatch -> option MnemonicMatch)
    (columns : list Column) (output : list (DepthMeasurementColumn MeasurementType)) :
  measurement_columns measurement_type search find_best_match columns = Ok output ->
  exists ids response,
    mapM col_externalId columns = Some ids
    /\ search ids = Ok response
    /\ sublist (map dmc_column_external_id output) (map mnemonic response)
    /\ (length output <= length columns)%nat.
Proof.
  unfold measurement_columns. rewrite column_external_ids_spec.
  destruct (mapM col_externalId columns) as [ids |] eqn:Hids; [| discriminate].
  cbn [rbind]. destruct (search ids) as [response | e] eqn:Hsearch; [| discriminate].
  cbn [rbind]. rewrite measurement_loop.
  destruct (existsb _ _); [discriminate |]. intros H. injection H as <-.
  exists ids, response. split; [reflexivity |]. split; [exact Hsearch |].
  split; [apply selected_sublist |].
  pose proof (selected_length measurement_type find_best_match columns response). lia.
Qed.

Lemma measurement_columns_mnemonics_witness :
  exists ids response,
    mapM col_externalId [mkColumn (Some "gr") None (Some ∅)] = Some ids
    /\ (fun _ : list string => Ok [mkMnemonicMatchGroup "GR" ["gamma ray"]]) ids
       = Ok response
    /\ sublist
         (map dmc_column_external_id [mkDepthMeasurementColumn "gamma ray" "" "GR"])
         (map mnemonic response)
    /\ (length [mkDepthMeasurementColumn "gamma ray" "" "GR"]
        <= length [mkColumn (Some "gr") None (Some ∅)])%nat.
Proof.
  apply (measurement_columns_mnemonics (fun m : string => m) _ _find_first_match).
  reflexivity.
Defined.

(** ** When [create_trajectory_ingestion] returns *)

Lemma trajectory_row_returns (factor : option float) (md_index inc_index azim_index : nat)
    (values : list (option float)) :
  (exists row, trajectory_row factor md_index inc_index azim_index values = Ok row)
  <-> row_readable factor md_index inc_index azim_index values.
Proof.
  unfold trajectory_row, row_readable, cell. split.
  - intros [row H].
    destruct (values !! md_index) as [vmd |]; cbn [rbind] in H; [| discriminate].
    destruct (values !! inc_index) as [vinc |];
      [| destruct (cell_truthy vmd); [destruct vmd, factor |]; discriminate].
    destruct (values !! azim_index) as [vazim |];
      [| destruct (cell_truthy vmd); [destruct vmd, factor |]; discriminate].
    repeat split; eauto.
    intros -> v [= <-]. destruct (cell_truthy vmd); [| reflexivity].
    destruct vmd; discriminate.
  - intros ([vmd ->] & [vinc ->] & [vazim ->] & Hf). cbn [rbind].
    assert (Hmd : exists md,
               (if cell_truthy vmd
                then match vmd, factor with
                     | Some x, Some f => Ok (Some (mul x f))
                     | _, _ => Raise TypeError
                     end
                else Ok None) = Ok md).
    { destruct (cell_truthy vmd) eqn:Ht; [| eauto].
      destruct vmd as [x |]; [| discriminate]. destruct factor as [f |]; [eauto |].
      specialize (Hf eq_refl _ eq_refl). congruence. }
    destruct Hmd as [md ->]. cbn [rbind].
    assert (Hazim : exists azim,
               (if cell_truthy vazim
                then match vazim with
                     | Some x => match rem x f360 with
                                 | Some a => Ok (Some a)
                                 | None => Raise ZeroDivisionError
                                 end
                     | None => Raise TypeError
                     end
                else Ok None) = Ok azim).
    { destruct (cell_truthy vazim) eqn:Ht; [| eauto].
      destruct vazim as [x |]; [| discriminate].
      destruct (rem_f360 x) as [a ->]. eauto. }
    destruct Hazim as [azim ->]. cbn [rbind].
    destruct md, vinc, azim; eauto.
Qed.

Section TrajectoryReturns.
Variable factor : option float.
Variables md_index inc_index azim_index : nat.

Let body (rows : list TrajectoryIngestionRow) (item : Z * list (option float))
  : result (list TrajectoryIngestionRow) :=
  let '(row_number, values) := item in
  let* row := trajectory_row factor md_index inc_index azim_index values in
  Ok (match row with
      | Some r => rows ++ [r]
      | None => rows
      end).


End TrajectoryReturns.


(** ** The records of the EDM mapper *)

(** X19. A run of the EDM mapper that succeeds uploads one well record
    for the first well of every cleaned name and none for a later well
    of the same cleaned name, so that no two records uploaded share a
    matching id. *)
Theorem edm_wells_deduplicated (datetime : Type) (fromisoformat : string -> option datetime)
    (well_assets wellbore_assets datums : list Asset) (calls : list (call datetime)) :
  ingest_wells_and_wellbores_edm datetime fromisoformat well_assets wellbore_assets datums
  = Ok calls ->
  map well_key (emitted_wells calls) = first_occurrences [] (map asset_key well_assets)
  /\ NoDup (map wi_matching_id (emitted_wells calls)).
Proof. apply edm_emits_first_occurrences. Qed.

Lemma edm_wells_deduplicated_witness :
  map well_key
    (emitted_wells
       [wells_ingest (date := unit)
          [mkWellIngestion " A" None " A" (mkAssetSource "w1" "EDM")
             (mkWellhead (of_decimal false 15 (-1)) (of_decimal false 60 0) "EPSG:4326")
             None None None]])
  = first_occurrences [] (map asset_key [edm_well_a; edm_well_b])
  /\ NoDup (map wi_matching_id
              (emitted_wells
                 [wells_ingest (date := unit)
                    [mkWellIngestion " A" None " A" (mkAssetSource "w1" "EDM")
                       (mkWellhead (of_decimal false 15 (-1)) (of_decimal false 60 0)
                          "EPSG:4326")
                       None None None]])).
Proof.
  apply (edm_wells_deduplicated unit (fun _ => None) [edm_well_a; edm_well_b] [] []).
  vm_compute. reflexivity.
Defined.

Section EDMShapes.
Variable datetime : Type.
Variable fromisoformat : string -> option datetime.
Variable by_parent : gmap (option string) (list Asset).
Variable datum_dict : gmap string Asset.





End EDMShapes.



(** ** The rows of a trajectory *)

Section TrajectoryRows.
Variable factor : option float.
Variables md_index inc_index azim_index : nat.

Let body (rows : list TrajectoryIngestionRow) (item : Z * list (option float))
  : result (list TrajectoryIngestionRow) :=
  let '(row_number, values) := item in
  let* row := trajectory_row factor md_index inc_index azim_index values in
  Ok (match row with
      | Some r => rows ++ [r]
      | None => rows
      end).

Lemma keepable_cells (values : list (option float)) :
  keepable md_index inc_index azim_index values = true
  <-> exists md inc azim,
        values !! md_index = Some (Some md) /\ truthy md = true
        /\ values !! inc_index = Some (Some inc)
        /\ values !! azim_index = Some (Some azim) /\ truthy azim = true.
Proof.
  unfold keepable. split.
  - destruct (values !! md_index) as [[md |] |]; try discriminate.
    destruct (values !! inc_index) as [[inc |] |]; try discriminate.
    destruct (values !! azim_index) as [[azim |] |]; try discriminate.
    intros [Hmd Hazim]%andb_true_iff. exists md, inc, azim. auto.
  - intros (md & inc & azim & -> & Hmd & -> & -> & Hazim). rewrite Hmd, Hazim. reflexivity.
Qed.

Lemma trajectory_row_exact (values : list (option float)) :
  row_readable factor md_index inc_index azim_index values ->
  if keepable md_index inc_index azim_index values
  then exists row,
         trajectory_row factor md_index inc_index azim_index values = Ok (Some row)
         /\ row_mapped factor md_index inc_index azim_index values row
  else trajectory_row factor md_index inc_index azim_index values = Ok None.
Proof.
  intros Hread.
  destruct (proj2 (trajectory_row_returns factor md_index inc_index azim_index values) Hread)
    as [[row |] Hrow].
  - pose proof (proj1 (trajectory_row_kept_iff _ _ _ _ _ _) Hrow)
      as (md & inc & azim & f & r & Hmd & Htmd & Hinc & Hazim & Htazim & _).
    assert (Hkeep : keepable md_index inc_index azim_index values = true).
    { apply keepable_cells. exists md, inc, azim. auto. }
    rewrite Hkeep. exists row. split; [exact Hrow |].
    apply trajectory_row_kept. exact Hrow.
  - destruct (keepable md_index inc_index azim_index values) eqn:Hkeep; [| exact Hrow].
    apply keepable_cells in Hkeep as (md & inc & azim & Hmd & Htmd & Hinc & Hazim & Htazim).
    destruct Hread as (_ & _ & _ & Hfactor).
    destruct factor as [f |] eqn:Hf.
    + destruct (rem_f360 azim) as [r Hr].
      assert (Hsome : trajectory_row (Some f) md_index inc_index azim_index values
                      = Ok (Some (mkTrajectoryIngestionRow (mul md f) inc r))).
      { apply trajectory_row_kept_iff. exists md, inc, azim, f, r. auto 10. }
      congruence.
    + specialize (Hfactor eq_refl _ Hmd). simpl in Hfactor. congruence.
Qed.

Lemma trajectory_loop_exact (data : SequenceData) (acc : list TrajectoryIngestionRow) :
  Forall (fun item => row_readable factor md_index inc_index azim_index item.2) data ->
  exists new,
    for_each body data acc = Ok (acc ++ new)
    /\ Forall2 (row_mapped factor md_index inc_index azim_index)
         (filter (fun values => keepable md_index inc_index azim_index values = true)
            (map snd data))
         new.
Proof.
  intros Hall. revert acc.
  induction Hall as [| [row_number values] data Hread Hall IH]; intros acc.
  - exists []. rewrite app_nil_r. split; [reflexivity | constructor].
  - cbn [for_each map snd]. unfold body at 1. cbn [snd] in Hread.
    pose proof (trajectory_row_exact values Hread) as Hrow.
    rewrite filter_cons.
    destruct (keepable md_index inc_index azim_index values) eqn:Hkeep.
    + destruct Hrow as (row & -> & Hmapped). cbn [rbind].
      destruct (IH (acc ++ [row])) as (new & -> & Hnew).
      exists (row :: new). rewrite <- app_assoc.
      rewrite decide_True by reflexivity.
      split; [reflexivity | constructor; assumption].
    + rewrite Hrow. cbn [rbind]. destruct (IH acc) as (new & -> & Hnew).
      exists new. rewrite decide_False by discriminate. split; [reflexivity | exact Hnew].
Qed.

End TrajectoryRows.

(** C6. When the three columns are found and every row can be read,
    [create_trajectory_ingestion] returns, and the rows of what it
    returns are, in order, those of the rows of the data whose measured
    depth, inclination and azimuth are numbers, depth and azimuth not
    zero: each with the depth times the factor, the inclination as it is
    and the azimuth modulo 360. A row with [None] for one of the three is
    not among them. The result is [None] exactly when no row is kept,
    and a trajectory with the names and units given otherwise. On a
    sequence of two rows, one with azimuth 370 and one without
    inclination, the mapper gives the one row with azimuth 10; on the
    second row alone it gives [None]. *)
Theorem trajectory_rows_spec
    (wellbore_asset_external_id : string) (sequence : Sequence) (data : SequenceData)
    (md_column : DepthIndexColumn) (inc_extid azim_extid : string)
    (inc_unit azim_unit : AngleUnitEnum) (source_name : string) (is_definitive : bool)
    (md_index inc_index azim_index : nat) :
  find_index sequence (column_external_id md_column) = Ok md_index ->
  find_index sequence inc_extid = Ok inc_index ->
  find_index sequence azim_extid = Ok azim_index ->
  Forall (fun item =>
            row_readable (du_factor (dic_unit md_column)) md_index inc_index azim_index
              item.2) data ->
  (exists r,
      create_trajectory_ingestion wellbore_asset_external_id sequence data md_column
        (inc_extid, inc_unit) (azim_extid, azim_unit) source_name is_definitive = Ok r
      /\ Forall2 (row_mapped (du_factor (dic_unit md_column)) md_index inc_index azim_index)
           (filter (fun values => keepable md_index inc_index azim_index values = true)
              (map snd data))
           (rows_of r)
      /\ (r = None
          <-> filter (fun values => keepable md_index inc_index azim_index values = true)
                (map snd data) = [])
      /\ (forall traj,
             r = Some traj ->
             traj = mkTrajectoryIngestion wellbore_asset_external_id
                      (mkSequenceSource (seq_external_id sequence) source_name)
                      (du_unit (dic_unit md_column)) inc_unit azim_unit is_definitive
                      (ti_rows traj)))
  /\ (forall values,
         absent values md_index \/ absent values inc_index \/ absent values azim_index ->
         keepable md_index inc_index azim_index values = false)
  /\ example_run [(0, [number 100; number 5; number 370]);
                  (1, [number 100; None; number 370])]
     = Ok (Some (example_trajectory
                   [mkTrajectoryIngestionRow (of_decimal false 100 0)
                      (of_decimal false 5 0) (of_decimal false 10 0)]))
  /\ example_run [(1, [number 100; None; number 370])] = Ok None.
Proof.
  intros Hmd Hinc Hazim Hall.
  split; [| split; [| split; vm_compute; reflexivity]].
  - unfold create_trajectory_ingestion. rewrite Hmd, Hinc, Hazim. cbn [rbind].
    destruct (trajectory_loop_exact (du_factor (dic_unit md_column))
                md_index inc_index azim_index data [] Hall) as (new & Hloop & Hnew).
    cbv zeta in Hloop. rewrite Hloop. cbn [rbind app].
    destruct new as [| row new].
    + exists None. split; [reflexivity |]. split; [exact Hnew |].
      split; [| discriminate].
      split; [intros _; inversion Hnew; reflexivity | reflexivity].
    + eexists. split; [reflexivity |]. split; [exact Hnew |]. split.
      * split; [discriminate |]. intros E. rewrite E in Hnew. inversion Hnew.
      * intros traj [= <-]. reflexivity.
  - intros values Habs. unfold keepable, absent in *.
    destruct Habs as [E | [E | E]]; rewrite E;
      repeat match goal with
             | |- context [match ?x with _ => _ end] => destruct x
             end; reflexivity.
Qed.

Lemma trajectory_rows_spec_witness :
  exists r,
    create_trajectory_ingestion "wb-1" example_sequence
      [(0, [number 100; number 5; number 370]); (1, [number 100; None; number 370])]
      example_md_column ("Inclination", degree) ("Azimuth", degree) "OSDU" true = Ok r
    /\ Forall2 (row_mapped (du_factor (dic_unit example_md_column)) 0 1 2)
         (filter (fun values => keepable 0 1 2 values = true)
            (map snd [(0, [number 100; number 5; number 370]);
                      (1, [number 100; None; number 370])]))
         (rows_of r)
    /\ (r = None
        <-> filter (fun values => keepable 0 1 2 values = true)
              (map snd [(0, [number 100; number 5; number 370]);
                        (1, [number 100; None; number 370])]) = [])
    /\ (forall traj,
           r = Some traj ->
           traj = mkTrajectoryIngestion "wb-1"
                    (mkSequenceSource (seq_external_id example_sequence) "OSDU")
                    (du_unit (dic_unit example_md_column)) degree degree true
                    (ti_rows traj)).
Proof.
  refine (proj1 (trajectory_rows_spec "wb-1" example_sequence
                   [(0, [number 100; number 5; number 370]);
                    (1, [number 100; None; number 370])]
                   example_md_column "Inclination" "Azimuth" degree degree "OSDU" true
                   0 1 2 _ _ _ _));
    [reflexivity | reflexivity | reflexivity |].
  repeat constructor; cbn; try (eexists; reflexivity); intros H; discriminate H.
Defined.
